(** * prisma-redis-middleware: the query extension of [src/extension.ts]

    A shallow embedding of [createPrismaRedisCacheExtension] and of its
    [$allOperations] hook, followed by the properties of the interception
    pipeline: registration of per-model cache functions, the cached read path
    with its fallback, and the invalidation that follows a mutation.

    What the extension calls but does not define is taken as follows.
    - [defaultCacheMethods] and [defaultMutationMethods] come from
      [./cacheMethods], which is not part of the sources at hand: they are
      parameters of the development.
    - [createCache] is the async-cache-dedupe library.  Only what the
      extension relies on is modelled: functions defined on the cache object
      by name, [cache.define] throwing when it is handed a negative ttl, an
      entry stored per function name and call key together with the
      references computed by the [references] callback, and [invalidateAll]
      removing the entries one of whose references the storage matches
      against a wildcard pattern.  How a storage matches is a parameter of
      the development; the matcher of the memory storage is given, for the
      scenarios.  The storage is taken to record references (its
      [invalidation] option is on): without them [invalidateAll] removes
      nothing.  Entries do not expire: time plays no part, nor do the
      deduplication of concurrent calls and the hooks ([onHit], [onMiss],
      ...).
    - [params.query] is the real executor: a state transformer on an abstract
      source of truth that settles with a value or an error.

    Assumptions on the input: [params.model] is a string (the hook casts it
    with [as string]); no model is named like a member of the cache object
    itself ([define], [clear], [invalidateAll], ...), so that [cache[model]]
    is the function defined for the model or [undefined]; every [cacheTime]
    is an integer; and the extension could be created: [createCache] refuses
    a negative global [cacheTime] as [cache.define] refuses a negative ttl,
    and what is said of the hook concerns the configurations for which there
    is one. *)

From Stdlib Require Import ZArith Ascii String List Bool Lia.
From stdpp Require Import base option list strings gmap.

(** ** JavaScript idioms used by the extension *)

Definition DEFAULT_CACHE_TIME : Z := 0.

(** [a || b] on an optional number: [undefined] and [0] are falsy. *)
Definition number_or (a : option Z) (b : Z) : Z :=
  match a with
  | Some n => if (n =? 0)%Z then b else n
  | None => b
  end.

(** [a || b] on an optional string: [undefined] and the empty string are
    falsy. *)
Definition string_or (a : option string) (b : string) : string :=
  match a with
  | Some EmptyString => b
  | Some s => s
  | None => b
  end.

(** [xs.includes(x)] on an array of strings. *)
Definition includes (xs : list string) (x : string) : bool :=
  existsb (String.eqb x) xs.

(** [xs?.includes(x)] in a boolean position: [undefined] is falsy. *)
Definition opt_includes (xs : option (list string)) (x : string) : bool :=
  match xs with
  | Some l => includes l x
  | None => false
  end.

(** [xs?.length] in a boolean position. *)
Definition opt_nonempty (xs : option (list string)) : bool :=
  match xs with
  | Some (_ :: _) => true
  | _ => false
  end.

(** ** Configuration *)

(** One element of [models]. *)
Module ModelConfig.
Record t := mk {
  model : string;
  cacheTime : option Z;
  cacheKey : option string;
  excludeMethods : option (list string);
  invalidateRelated : option (list string)
}.
End ModelConfig.

(** The argument of [createPrismaRedisCacheExtension].  The hooks, the storage
    descriptor and the transformer are handed to [createCache] untouched and
    are left out. *)
Record CreatePrismaRedisCache := {
  models : option (list ModelConfig.t);
  cacheTime : option Z;
  excludeModels : option (list string);
  excludeMethods : option (list string)
}.

(** Destructuring defaults of the parameter list. *)
Definition cfg_models (cfg : CreatePrismaRedisCache) : list ModelConfig.t :=
  default [] (models cfg).
Definition cfg_cacheTime (cfg : CreatePrismaRedisCache) : Z :=
  default DEFAULT_CACHE_TIME (cacheTime cfg).
Definition cfg_excludeModels (cfg : CreatePrismaRedisCache) : list string :=
  default [] (excludeModels cfg).
Definition cfg_excludeMethods (cfg : CreatePrismaRedisCache) : list string :=
  default [] (excludeMethods cfg).

(** ** The cache object of async-cache-dedupe *)

(** A function defined on the cache object: the tag key closed over by its
    [references] callback, and its ttl. *)
Record Binding := {
  tagKey : string;
  ttl : Z
}.

(** The [references] callback of both [cache.define] calls. *)
Definition references (b : Binding) (key : string) : list string :=
  [tagKey b +:+ "~" +:+ key].

(** A stored result. *)
Record Entry := {
  e_name : string;
  e_key : string;
  e_references : list string;
  e_ttl : Z;
  e_value : string
}.

(** [wildcardMatch(value, content)] of async-cache-dedupe, which its memory
    storage uses to match a stored reference against a pattern.  It walks the
    pattern and the reference once, from left to right, and never goes back:
    at a [*] it moves on in the pattern as soon as the character after the
    [*] shows up in the reference, and otherwise skips a character of the
    reference.  When either is used up, the pattern matches if at most its
    last character is left. *)
Fixpoint wildcardLoop (value content : string) : bool :=
  match value with
  | EmptyString => true
  | String c value' =>
      (fix skip (content : string) : bool :=
         match content with
         | EmptyString =>
             match value' with EmptyString => true | String _ _ => false end
         | String d content' =>
             if Ascii.eqb c d then wildcardLoop value' content'
             else if Ascii.eqb c "*" then
               match value' with
               | String c' _ =>
                   if Ascii.eqb c' d then wildcardLoop value' content
                   else skip content'
               | EmptyString => skip content'
               end
             else false
         end) content
  end.

Definition wildcardMatch (value content : string) : bool :=
  if String.eqb value "*" then true
  else if String.eqb value content then true
  else wildcardLoop value content.

(** The pattern handed to [cache.invalidateAll] for a model name. *)
Definition invalidation_pattern (m : string) : string := "*" +:+ m +:+ "~*".

Example wildcardMatch_User : wildcardMatch (invalidation_pattern "User") "User~k1" = true.
Proof. reflexivity. Qed.

Example wildcardMatch_other : wildcardMatch (invalidation_pattern "User") "Post~k1" = false.
Proof. reflexivity. Qed.

(** The matcher does not go back: after the first [U] of the reference it is
    committed to the pattern. *)
Example wildcardMatch_no_backtracking :
  wildcardMatch (invalidation_pattern "User") "UsUser~k1" = false.
Proof. reflexivity. Qed.

(** ** Promises, events and the world the hook runs in *)

(** How a promise settles. *)
Inductive Settled (A : Type) : Type :=
| Fulfilled (a : A)
| Rejected (e : string).
Arguments Fulfilled {A} a.
Arguments Rejected {A} e.

(** What the hook does to its collaborators, in the order it does it.
    [EvQueryCalled] is the call of [params.query]; [EvQuerySettled] is the
    point where the hook has the outcome of that call in hand, because it
    awaited the promise or returns it. *)
Inductive Event : Type :=
| EvQueryCalled
| EvQuerySettled (r : Settled string)
| EvCacheHit (name key : string)
| EvCacheMiss (name key : string)
| EvCacheSet (name key : string) (refs : list string)
| EvInvalidateAll (pattern : string)
| EvConsoleError (err : string)
| EvConsoleLog (msg : string).

(** A failure of the cache layer during one call: on the lookup, before the
    real executor is reached, or on the store, after it has answered. *)
Inductive CacheFault : Type :=
| NoFault
| FaultOnGet (e : string)
| FaultOnSet (e : string).

(** The failures of the backing store during one call of the hook, as the
    hook sees them: whether the cache function throws, whether
    [cache.invalidateAll] rejects for a pattern (the memory and Redis storages
    of async-cache-dedupe catch the errors of a deletion themselves; a custom
    storage need not), and, when several deletions started together reject,
    which of them rejects first in time: [rejectsFirst] is given their errors
    in the order of the calls and answers with a position among them. *)
Record Faults := {
  cacheFault : CacheFault;
  invalidateFault : string -> option string;
  rejectsFirst : list string -> nat
}.

Definition no_faults : Faults :=
  {| cacheFault := NoFault; invalidateFault := fun _ => None;
     rejectsFirst := fun _ => 0 |}.

Section Extension.

(** The source of truth behind [params.query]. *)
Variable DB : Type.

(** The call key async-cache-dedupe derives from the argument of a cache
    function: a serialization of [params] (model, operation, args). *)
Variable serialize : string -> string -> string -> string.

(** The two tables of [./cacheMethods]. *)
Variable defaultCacheMethods : list string.
Variable defaultMutationMethods : list string.

(** How the configured storage matches a stored reference against the pattern
    of [cache.invalidateAll]: [wildcardMatch] for the memory storage of
    async-cache-dedupe, the glob of [SCAN ... MATCH] for Redis. *)
Variable referenceMatches : string -> string -> bool.

Definition entry_matches (pattern : string) (e : Entry) : bool :=
  existsb (referenceMatches pattern) (e_references e).

(** The argument of [$allOperations]. *)
Record MiddlewareParams := {
  model : string;
  operation : string;
  args : string;
  query : string -> DB -> Settled string * DB
}.

Record World := {
  cache : gmap string Binding;
  storage : list Entry;
  db : DB;
  trace : list Event
}.

Definition set_cache (f : gmap string Binding -> gmap string Binding) (w : World) : World :=
  {| cache := f (cache w); storage := storage w; db := db w; trace := trace w |}.
Definition set_storage (f : list Entry -> list Entry) (w : World) : World :=
  {| cache := cache w; storage := f (storage w); db := db w; trace := trace w |}.
Definition set_db (d : DB) (w : World) : World :=
  {| cache := cache w; storage := storage w; db := d; trace := trace w |}.
Definition log (ev : Event) (w : World) : World :=
  {| cache := cache w; storage := storage w; db := db w; trace := trace w ++ [ev] |}.

(** An asynchronous computation of the hook: it changes the world and
    settles. *)
Definition M (A : Type) : Type := World -> Settled A * World.

Definition ret {A} (a : A) : M A := fun w => (Fulfilled a, w).
Definition throw {A} (e : string) : M A := fun w => (Rejected e, w).
Definition bind {A B} (m : M A) (k : A -> M B) : M B := fun w =>
  match m w with
  | (Fulfilled a, w') => k a w'
  | (Rejected e, w') => (Rejected e, w')
  end.
Definition try_catch {A} (m : M A) (handler : string -> M A) : M A := fun w =>
  match m w with
  | (Fulfilled a, w') => (Fulfilled a, w')
  | (Rejected e, w') => handler e w'
  end.
Definition gets {A} (f : World -> A) : M A := fun w => (Fulfilled (f w), w).
Definition modify (f : World -> World) : M unit := fun w => (Fulfilled tt, f w).
Definition emit (ev : Event) : M unit := modify (log ev).

Notation "x <- m ;; k" := (bind m (fun x => k))
  (at level 100, m at next level, right associativity).
Notation "m ;;; k" := (bind m (fun _ => k))
  (at level 100, right associativity).

(** Computations started one after the other, each running to its end
    whatever becomes of the others. *)
Fixpoint all_settled (ms : list (M unit)) (w : World) : list (Settled unit) * World :=
  match ms with
  | [] => ([], w)
  | m :: ms' =>
      let '(r, w1) := m w in
      let '(rs, w2) := all_settled ms' w1 in
      (r :: rs, w2)
  end.

(** The errors among outcomes, in the order of the calls. *)
Fixpoint rejections (rs : list (Settled unit)) : list string :=
  match rs with
  | [] => []
  | Rejected e :: rs' => e :: rejections rs'
  | Fulfilled _ :: rs' => rejections rs'
  end.

(** [Promise.all] over computations that have all been started: each one
    runs; the result fulfils when all do, and otherwise rejects with the
    error of the one that rejects first in time. *)
Definition promise_all (env : Faults) (ms : list (M unit)) : M unit := fun w =>
  let '(rs, w') := all_settled ms w in
  (match rejections rs with
   | [] => Fulfilled tt
   | e :: es => Rejected (nth (rejectsFirst env (e :: es) mod length (e :: es)) (e :: es) e)
   end, w').

(** *** The real executor *)

(** A promise of [fetchFromPrisma] that nobody has awaited yet. *)
Definition Pending : Type := DB -> Settled string * DB.

(** [fetchFromPrisma()]: [params.query(params.args)] is called and a pending
    promise comes back. *)
Definition fetchFromPrisma (p : MiddlewareParams) : M Pending :=
  emit EvQueryCalled ;;; ret (query p (args p)).

(** The promise settles: the query has run against the source of truth. *)
Definition settle (pr : Pending) : M string := fun w =>
  let '(r, d) := pr (db w) in
  (r, log (EvQuerySettled r) (set_db d w)).

(** [await fetchFromPrisma()]. *)
Definition await_fetchFromPrisma (p : MiddlewareParams) : M string :=
  pr <- fetchFromPrisma p ;; settle pr.

(** *** The cache layer *)

Definition callKey (p : MiddlewareParams) : string :=
  serialize (model p) (operation p) (args p).

Definition lookup_entry (name key : string) (s : list Entry) : option Entry :=
  List.find (fun e => String.eqb (e_name e) name && String.eqb (e_key e) key) s.

Definition new_entry (name : string) (b : Binding) (key value : string) : Entry :=
  {| e_name := name; e_key := key; e_references := references b key;
     e_ttl := ttl b; e_value := value |}.

(** The function [cache.define] installs under [name]: look the call key up,
    answer from the store on a hit, otherwise run [modelsFetch] (which awaits
    [cb], that is [fetchFromPrisma]) and store its result under the
    references of the binding.  A ttl below one second stores nothing. *)
Definition cacheFunction (env : Faults) (name : string) (b : Binding)
    (p : MiddlewareParams) : M string :=
  let key := callKey p in
  match cacheFault env with
  | FaultOnGet e => throw e
  | _ =>
      s <- gets storage ;;
      match lookup_entry name key s with
      | Some en => emit (EvCacheHit name key) ;;; ret (e_value en)
      | None =>
          emit (EvCacheMiss name key) ;;;
          v <- await_fetchFromPrisma p ;;
          match cacheFault env with
          | FaultOnSet e => throw e
          | _ =>
              if (ttl b <? 1)%Z then ret v
              else
                modify (set_storage (fun s => s ++ [new_entry name b key v])) ;;;
                emit (EvCacheSet name key (references b key)) ;;;
                ret v
          end
      end
  end.

(** [cache.invalidateAll(pattern)]. *)
Definition invalidateAll (env : Faults) (pattern : string) : M unit :=
  emit (EvInvalidateAll pattern) ;;;
  match invalidateFault env pattern with
  | Some e => throw e
  | None => modify (set_storage (List.filter (fun e => negb (entry_matches pattern e))))
  end.

(** *** Registration of cache functions (lines 40-106) *)

Definition excludedCacheMethods (cfg : CreatePrismaRedisCache) : list string :=
  List.filter (fun cacheMethod => includes (cfg_excludeMethods cfg) cacheMethod)
    defaultCacheMethods.

(** [cache[name]] in a boolean position. *)
Definition defined (c : gmap string Binding) (name : string) : bool :=
  match c !! name with Some _ => true | None => false end.

(** The error of [cache.define] for a ttl it refuses. *)
Definition ttl_error : string := "ttl must be a positive integer greater than 0".

(** [cache.define(name, { references, ttl }, fn)], on the functions defined so
    far: whether it threw, and the functions defined afterwards.  A negative
    [ttl] option makes it throw and define nothing; without a [ttl] option the
    function gets the ttl the cache was created with, [cacheOptions.ttl]. *)
Definition cache_define (name tk : string) (t : option Z) (cache_ttl : Z)
    (c : gmap string Binding) : Settled unit * gmap string Binding :=
  match t with
  | Some t =>
      if (t <? 0)%Z then (Rejected ttl_error, c)
      else (Fulfilled tt, <[name := {| tagKey := tk; ttl := t |}]> c)
  | None => (Fulfilled tt, <[name := {| tagKey := tk; ttl := cache_ttl |}]> c)
  end.

(** The body of [models?.forEach]. *)
Definition define_for_rule (cfg : CreatePrismaRedisCache) (p : MiddlewareParams)
    (c : gmap string Binding) (r : ModelConfig.t) : Settled unit * gmap string Binding :=
  let notNullModel := model p in
  if negb (defined c (ModelConfig.model r))
     && String.eqb (ModelConfig.model r) notNullModel
     && negb (includes (cfg_excludeModels cfg) notNullModel)
     && negb (opt_includes (ModelConfig.excludeMethods r) (operation p))
  then
    cache_define (ModelConfig.model r)
      (string_or (ModelConfig.cacheKey r) notNullModel)
      (Some (number_or (ModelConfig.cacheTime r) (cfg_cacheTime cfg)))
      (cfg_cacheTime cfg) c
  else (Fulfilled tt, c).

(** [models?.forEach(...)]: the rules in order, until a [cache.define]
    throws. *)
Fixpoint forEach_rule (cfg : CreatePrismaRedisCache) (p : MiddlewareParams)
    (rules : list ModelConfig.t) (c : gmap string Binding)
    : Settled unit * gmap string Binding :=
  match rules with
  | [] => (Fulfilled tt, c)
  | r :: rules' =>
      match define_for_rule cfg p c r with
      | (Fulfilled _, c') => forEach_rule cfg p rules' c'
      | (Rejected e, c') => (Rejected e, c')
      end
  end.

(** [models?.find(...)] of line 79. *)
Definition excludedCacheMethodsInModels (cfg : CreatePrismaRedisCache)
    (p : MiddlewareParams) : option ModelConfig.t :=
  List.find (fun r => String.eqb (ModelConfig.model r) (model p)
                      && opt_nonempty (ModelConfig.excludeMethods r))
    (cfg_models cfg).

(** The second [cache.define], for a model no rule has defined.  It passes
    no ttl, so the function gets the ttl of [cacheOptions]. *)
Definition define_fallthrough (cfg : CreatePrismaRedisCache) (p : MiddlewareParams)
    (c : gmap string Binding) : Settled unit * gmap string Binding :=
  let notNullModel := model p in
  if negb (defined c notNullModel)
     && negb (includes (cfg_excludeModels cfg) notNullModel)
     && negb (opt_includes
                (excludedCacheMethodsInModels cfg p ≫= ModelConfig.excludeMethods)
                (operation p))
  then cache_define notNullModel notNullModel None (cfg_cacheTime cfg) c
  else (Fulfilled tt, c).

(** Lines 53-106 on the functions defined so far: whether a [cache.define]
    threw, and the functions defined afterwards. *)
Definition register_run (cfg : CreatePrismaRedisCache) (p : MiddlewareParams)
    (c : gmap string Binding) : Settled unit * gmap string Binding :=
  if negb (includes (excludedCacheMethods cfg) (operation p)) then
    match forEach_rule cfg p (cfg_models cfg) c with
    | (Fulfilled _, c') => define_fallthrough cfg p c'
    | (Rejected e, c') => (Rejected e, c')
    end
  else (Fulfilled tt, c).

(** The functions defined after lines 53-106. *)
Definition register (cfg : CreatePrismaRedisCache) (p : MiddlewareParams)
    (c : gmap string Binding) : gmap string Binding :=
  snd (register_run cfg p c).

(** *** Invalidation after a mutation (lines 131-145) *)

Definition invalidate_related (env : Faults) (r : ModelConfig.t) : M unit :=
  match ModelConfig.invalidateRelated r with
  | Some related =>
      promise_all env
        (map (fun relatedModel => invalidateAll env (invalidation_pattern relatedModel))
             related)
  | None => ret tt
  end.

Definition invalidate (cfg : CreatePrismaRedisCache) (env : Faults)
    (p : MiddlewareParams) : M unit :=
  invalidateAll env (invalidation_pattern (model p)) ;;;
  emit (EvConsoleLog ("Invalidated cache for " +:+ model p)) ;;;
  promise_all env
    (map (invalidate_related env)
         (List.filter (fun r => String.eqb (ModelConfig.model r) (model p))
            (cfg_models cfg))).

(** *** The hook *)

(** Lines 53-106 in the hook: an error of [cache.define] rejects the call
    there and then. *)
Definition registration (cfg : CreatePrismaRedisCache) (p : MiddlewareParams) : M unit :=
  fun w => (fst (register_run cfg p (cache w)), set_cache (register cfg p) w).


(** The [else] branch (lines 127-146) up to [return result].  [result] holds
    the promise of [fetchFromPrisma()], which line 128 does not await: it is
    still pending while [body] runs, and the hook learns its outcome when it
    returns it.  The first [cache.invalidateAll] of [body] is called in the
    same synchronous run as [params.query], before any answer of the source of
    truth can be processed.  When [body] throws, the hook rejects with that
    error and the promise is dropped; the query it stands for runs to
    completion all the same. *)
Definition return_pending (body : M unit) (result : Pending) : M string := fun w =>
  let '(r, w1) := body w in
  let '(v, w2) := settle result w1 in
  (match r with Rejected e => Rejected e | Fulfilled _ => v end, w2).

Definition query_directly (cfg : CreatePrismaRedisCache) (env : Faults)
    (p : MiddlewareParams) : M string :=
  result <- fetchFromPrisma p ;;
  return_pending
    (if includes defaultMutationMethods (operation p)
     then invalidate cfg env p
     else ret tt)
    result.

(** The [try]/[catch] of lines 118-125. *)
Definition query_through_cache (env : Faults) (cacheFn : Binding)
    (p : MiddlewareParams) : M string :=
  try_catch
    (cacheFunction env (model p) cacheFn p)
    (fun err =>
       result <- await_fetchFromPrisma p ;;
       emit (EvConsoleError err) ;;;
       ret result).

(** The condition of line 112, with [typeof cacheFunction === "function"]
    as the binding it finds. *)
Definition cacheable (cfg : CreatePrismaRedisCache) (p : MiddlewareParams)
    (c : gmap string Binding) : option Binding :=
  if negb (includes (cfg_excludeModels cfg) (model p))
     && negb (includes (excludedCacheMethods cfg) (operation p))
     && negb (includes defaultMutationMethods (operation p))
  then c !! model p
  else None.

Definition allOperations (cfg : CreatePrismaRedisCache) (env : Faults)
    (p : MiddlewareParams) : M string :=
  registration cfg p ;;;
  c <- gets cache ;;
  match cacheable cfg p c with
  | Some cacheFn => query_through_cache env cacheFn p
  | None => query_directly cfg env p
  end.

(** A sequence of calls of the hook, one after the other. *)
Definition run (cfg : CreatePrismaRedisCache)
    (calls : list (Faults * MiddlewareParams)) (w : World) : World :=
  foldl (fun w call => snd (allOperations cfg call.1 call.2 w)) w calls.

Definition init (d : DB) : World :=
  {| cache := ∅; storage := []; db := d; trace := [] |}.

(** ** Vocabulary of the properties *)

(** *** Bindings and the configuration they come from *)

(** The binding the first [cache.define] builds from a rule. *)
Definition binding_of_rule (cfg : CreatePrismaRedisCache) (r : ModelConfig.t) : Binding :=
  {| tagKey := string_or (ModelConfig.cacheKey r) (ModelConfig.model r);
     ttl := number_or (ModelConfig.cacheTime r) (cfg_cacheTime cfg) |}.

(** The binding the second [cache.define] builds for a model without rule. *)
Definition binding_of_model (cfg : CreatePrismaRedisCache) (m : string) : Binding :=
  {| tagKey := m; ttl := cfg_cacheTime cfg |}.

(** Where the binding of a model can come from. *)
Definition binding_from_cfg (cfg : CreatePrismaRedisCache) (m : string) (b : Binding) : Prop :=
  (∃ r, r ∈ cfg_models cfg ∧ ModelConfig.model r = m ∧ b = binding_of_rule cfg r)
  ∨ ((∀ r, r ∈ cfg_models cfg → ModelConfig.model r ≠ m) ∧ b = binding_of_model cfg m).

(** The ttl the first [cache.define] is handed for a rule. *)
Definition rule_ttl (cfg : CreatePrismaRedisCache) (r : ModelConfig.t) : Z :=
  number_or (ModelConfig.cacheTime r) (cfg_cacheTime cfg).

(** The rule from which the [forEach] of a call defines the function of the
    model, when the model has none yet: the first rule that names the model
    and does not exclude the operation of the call. *)
Definition defining_rule (cfg : CreatePrismaRedisCache) (p : MiddlewareParams)
    : option ModelConfig.t :=
  List.find (λ r, String.eqb (ModelConfig.model r) (model p)
                  && negb (opt_includes (ModelConfig.excludeMethods r) (operation p)))
    (cfg_models cfg).

(** Whether a rule names the model. *)
Definition has_rule (cfg : CreatePrismaRedisCache) (m : string) : bool :=
  existsb (λ r, String.eqb (ModelConfig.model r) m) (cfg_models cfg).

(** The binding a call creates for its model when the model has none yet, if
    it creates one. *)
Definition created_binding (cfg : CreatePrismaRedisCache) (p : MiddlewareParams)
    : option Binding :=
  if includes (cfg_excludeModels cfg) (model p)
     || includes (excludedCacheMethods cfg) (operation p)
  then None
  else
    match defining_rule cfg p with
    | Some r => if (rule_ttl cfg r <? 0)%Z then None else Some (binding_of_rule cfg r)
    | None =>
        if has_rule cfg (model p) then None
        else Some (binding_of_model cfg (model p))
    end.

(** *** Variations of a configuration and of a call *)

(** The configuration with one more name in [excludeMethods]. *)
Definition with_excludeMethod (m : string) (cfg : CreatePrismaRedisCache)
    : CreatePrismaRedisCache :=
  {| models := models cfg;
     cacheTime := cacheTime cfg;
     excludeModels := excludeModels cfg;
     excludeMethods := Some (m :: cfg_excludeMethods cfg) |}.

(** The same call with another executor. *)
Definition with_query (q : string → DB → Settled string * DB) (p : MiddlewareParams)
    : MiddlewareParams :=
  {| model := model p; operation := operation p; args := args p; query := q |}.

(** *** The invalidation fan-out *)

(** How one [cache.invalidateAll] settles. *)
Definition fault_result (env : Faults) (pattern : string) : Settled unit :=
  match invalidateFault env pattern with
  | Some e => Rejected e
  | None => Fulfilled tt
  end.

(** How deletions started together settle as a whole: the whole fulfils when
    none of them fails, and rejects with the error of one that fails. *)
Definition settles_as (env : Faults) (patterns : list string) (r : Settled unit) : Prop :=
  match r with
  | Fulfilled _ => ∀ pat, pat ∈ patterns → invalidateFault env pat = None
  | Rejected err => ∃ pat, pat ∈ patterns ∧ invalidateFault env pat = Some err
  end.

(** The related models of the rules of the model at hand, in the order in
    which lines 134-144 reach them. *)
Definition related_models (cfg : CreatePrismaRedisCache) (p : MiddlewareParams)
    : list string :=
  flat_map (λ r, default [] (ModelConfig.invalidateRelated r))
    (List.filter (λ r, String.eqb (ModelConfig.model r) (model p)) (cfg_models cfg)).

(** An entry none of whose references matches one of the patterns. *)
Definition matches_none (patterns : list string) (e : Entry) : bool :=
  negb (existsb (λ pattern, entry_matches pattern e) patterns).

(** The patterns a mutation hands to [cache.invalidateAll], in order. *)
Definition invalidation_patterns (cfg : CreatePrismaRedisCache) (p : MiddlewareParams)
    : list string :=
  invalidation_pattern (model p) :: map invalidation_pattern (related_models cfg p).

(** *** Relations between the world before and after a step *)

(** A step respects a relation when the world it leaves is related to the
    world it found. *)
Definition respects (R : World → World → Prop) {A} (m : M A) : Prop :=
  ∀ w, R w (snd (m w)).

Definition same_cache (w w' : World) : Prop := cache w' = cache w.
Definition same_db (w w' : World) : Prop := db w' = db w.
Definition storage_shrinks (w w' : World) : Prop := ∀ e, e ∈ storage w' → e ∈ storage w.
Definition trace_extends (w w' : World) : Prop := trace w `prefix_of` trace w'.
Definition entry_kept (e : Entry) (w w' : World) : Prop :=
  e ∈ storage w → e ∈ storage w'.

(** ** Properties *)

(** *** Arrays of strings *)

Lemma includes_true_iff (xs : list string) (x : string) :
  includes xs x = true ↔ x ∈ xs.
Proof.
  unfold includes. induction xs as [|y ys IH]; simpl.
  - split; [discriminate | intros H; inversion H].
  - rewrite orb_true_iff, IH, String.eqb_eq, elem_of_cons.
    split; (intros [H|H]; [left | right]); done.
Qed.

Lemma includes_filter (f : string → bool) (xs : list string) (x : string) :
  includes (List.filter f xs) x = includes xs x && f x.
Proof.
  unfold includes. induction xs as [|y ys IH]; simpl; [done|].
  destruct (f y) eqn:Hfy; simpl; rewrite IH;
    (destruct (String.eqb_spec x y) as [->|]; simpl; [|done]);
    rewrite Hfy; by destruct (existsb _ ys).
Qed.

(** *** Registration *)

Lemma defined_true (c : gmap string Binding) (name : string) :
  defined c name = true ↔ is_Some (c !! name).
Proof. unfold defined. destruct (c !! name); split; (done || by intros []). Qed.

Lemma defined_false (c : gmap string Binding) (name : string) :
  defined c name = false ↔ c !! name = None.
Proof. unfold defined. by destruct (c !! name). Qed.

Lemma opt_includes_nonempty xs x : opt_includes xs x = true → opt_nonempty xs = true.
Proof. destruct xs as [[|]|]; simpl; (done || discriminate). Qed.

(** What the [find] of line 79 returns when every rule of the model excludes
    the operation: a rule that excludes it. *)
Lemma excludedCacheMethodsInModels_excludes cfg p :
  (∀ r, r ∈ cfg_models cfg → ModelConfig.model r = model p →
        opt_includes (ModelConfig.excludeMethods r) (operation p) = true) →
  (∃ r, r ∈ cfg_models cfg ∧ ModelConfig.model r = model p) →
  opt_includes (excludedCacheMethodsInModels cfg p ≫= ModelConfig.excludeMethods)
    (operation p) = true.
Proof.
  unfold excludedCacheMethodsInModels. generalize (cfg_models cfg) as rules.
  induction rules as [|r rules IH]; intros Hall (r' & Hin & Hm).
  - inversion Hin.
  - simpl. destruct (String.eqb_spec (ModelConfig.model r) (model p)) as [Heq|Hne]; simpl.
    + assert (opt_includes (ModelConfig.excludeMethods r) (operation p) = true) as Hr
        by (apply Hall; [left | done]).
      rewrite (opt_includes_nonempty _ _ Hr). done.
    + apply IH.
      * intros r0 Hr0. apply Hall. by right.
      * apply elem_of_cons in Hin as [->|Hin]; [done | eauto].
Qed.

Lemma excludedCacheMethodsInModels_elem cfg p r :
  excludedCacheMethodsInModels cfg p = Some r →
  r ∈ cfg_models cfg ∧ ModelConfig.model r = model p.
Proof.
  unfold excludedCacheMethodsInModels. intros Hf.
  apply find_some in Hf as [Hin Hr]. apply andb_true_iff in Hr as [Hm _].
  split; [by apply list_elem_of_In | by apply String.eqb_eq].
Qed.

Lemma has_rule_true cfg m :
  has_rule cfg m = true ↔ ∃ r, r ∈ cfg_models cfg ∧ ModelConfig.model r = m.
Proof.
  unfold has_rule. rewrite existsb_exists. split.
  - intros (r & Hin & Heq). exists r. split; [by apply list_elem_of_In | by apply String.eqb_eq].
  - intros (r & Hin & Heq). exists r. split; [by apply list_elem_of_In | by apply String.eqb_eq].
Qed.

Lemma has_rule_false cfg m :
  has_rule cfg m = false ↔ ∀ r, r ∈ cfg_models cfg → ModelConfig.model r ≠ m.
Proof.
  split.
  - intros Hno r Hr Heq.
    assert (has_rule cfg m = true) as Hyes by (apply has_rule_true; eauto). congruence.
  - intros Hno. destruct (has_rule cfg m) eqn:Hyes; [|done].
    apply has_rule_true in Hyes as (r & Hr & Heq). by destruct (Hno r Hr).
Qed.

Lemma defining_rule_Some cfg p r :
  defining_rule cfg p = Some r →
  r ∈ cfg_models cfg ∧ ModelConfig.model r = model p
  ∧ opt_includes (ModelConfig.excludeMethods r) (operation p) = false.
Proof.
  unfold defining_rule. intros Hf. apply find_some in Hf as [Hin Hr].
  apply andb_true_iff in Hr as [Hm Hex].
  split; [by apply list_elem_of_In|]. split; [by apply String.eqb_eq|].
  by apply negb_true_iff.
Qed.

Lemma defining_rule_None cfg p r :
  defining_rule cfg p = None →
  r ∈ cfg_models cfg → ModelConfig.model r = model p →
  opt_includes (ModelConfig.excludeMethods r) (operation p) = true.
Proof.
  unfold defining_rule. intros Hf Hin Hm.
  pose proof (find_none _ _ Hf r) as Hr. rewrite <- list_elem_of_In in Hr.
  specialize (Hr Hin). rewrite Hm, String.eqb_refl in Hr. simpl in Hr.
  by apply negb_false_iff.
Qed.

(** Once the function of the model is defined, no rule defines anything. *)
Lemma forEach_rule_defined cfg p rules c :
  defined c (model p) = true → forEach_rule cfg p rules c = (Fulfilled tt, c).
Proof.
  intros Hdef. induction rules as [|r rules IH]; simpl; [done|].
  assert (define_for_rule cfg p c r = (Fulfilled tt, c)) as ->; [|done].
  unfold define_for_rule.
  destruct (String.eqb_spec (ModelConfig.model r) (model p)) as [->|];
    [by rewrite Hdef | by rewrite andb_false_r].
Qed.

(** Nothing is defined for a model in [excludeModels]. *)
Lemma forEach_rule_excluded_model cfg p rules c :
  includes (cfg_excludeModels cfg) (model p) = true →
  forEach_rule cfg p rules c = (Fulfilled tt, c).
Proof.
  intros Hex. induction rules as [|r rules IH]; simpl; [done|].
  assert (define_for_rule cfg p c r = (Fulfilled tt, c)) as ->; [|done].
  unfold define_for_rule. rewrite Hex. simpl. by rewrite !andb_false_r.
Qed.

(** The [forEach] when the model has no function yet: the first rule of the
    model that does not exclude the operation is handed to [cache.define],
    which throws for a negative ttl; the rules after it change nothing. *)
Lemma forEach_rule_absent cfg p rules c :
  c !! model p = None →
  includes (cfg_excludeModels cfg) (model p) = false →
  forEach_rule cfg p rules c
  = match List.find (λ r, String.eqb (ModelConfig.model r) (model p)
                          && negb (opt_includes (ModelConfig.excludeMethods r) (operation p)))
            rules with
    | Some r =>
        if (rule_ttl cfg r <? 0)%Z then (Rejected ttl_error, c)
        else (Fulfilled tt, <[model p := binding_of_rule cfg r]> c)
    | None => (Fulfilled tt, c)
    end.
Proof.
  intros Hnone Hex. apply defined_false in Hnone as Hdef.
  induction rules as [|r rules IH]; simpl; [done|].
  unfold define_for_rule at 1.
  destruct (String.eqb_spec (ModelConfig.model r) (model p)) as [Heq|Hne]; simpl.
  - rewrite Heq, Hdef, Hex. simpl.
    destruct (opt_includes (ModelConfig.excludeMethods r) (operation p)); simpl; [exact IH|].
    unfold cache_define, rule_ttl.
    destruct (number_or (ModelConfig.cacheTime r) (cfg_cacheTime cfg) <? 0)%Z; [done|].
    rewrite forEach_rule_defined.
    + unfold binding_of_rule. by rewrite Heq.
    + apply defined_true. rewrite lookup_insert_eq. eauto.
  - rewrite andb_false_r. simpl. exact IH.
Qed.

(** Registration does nothing once the function of the model is defined. *)
Lemma register_run_defined cfg p c b :
  c !! model p = Some b → register_run cfg p c = (Fulfilled tt, c).
Proof.
  intros Hb. unfold register_run. destruct (negb _); [|done].
  assert (defined c (model p) = true) as Hdef by (apply defined_true; eauto).
  rewrite forEach_rule_defined by done.
  unfold define_fallthrough. by rewrite Hdef.
Qed.

Lemma register_run_excluded_model cfg p c :
  includes (cfg_excludeModels cfg) (model p) = true →
  register_run cfg p c = (Fulfilled tt, c).
Proof.
  intros Hex. unfold register_run. destruct (negb _); [|done].
  rewrite forEach_rule_excluded_model by done.
  unfold define_fallthrough. rewrite Hex. simpl. by rewrite andb_false_r.
Qed.

Lemma register_run_excluded_method cfg p c :
  includes (excludedCacheMethods cfg) (operation p) = true →
  register_run cfg p c = (Fulfilled tt, c).
Proof. intros Hex. unfold register_run. by rewrite Hex. Qed.

(** Registration when the model has no function yet and neither the model
    nor the operation is excluded. *)
Lemma register_run_absent cfg p c :
  c !! model p = None →
  includes (cfg_excludeModels cfg) (model p) = false →
  includes (excludedCacheMethods cfg) (operation p) = false →
  register_run cfg p c
  = match defining_rule cfg p with
    | Some r =>
        if (rule_ttl cfg r <? 0)%Z then (Rejected ttl_error, c)
        else (Fulfilled tt, <[model p := binding_of_rule cfg r]> c)
    | None =>
        if has_rule cfg (model p) then (Fulfilled tt, c)
        else (Fulfilled tt, <[model p := binding_of_model cfg (model p)]> c)
    end.
Proof.
  intros Hnone Hexm Hexo. unfold register_run. rewrite Hexo. simpl.
  rewrite forEach_rule_absent by done. fold (defining_rule cfg p).
  destruct (defining_rule cfg p) as [r|] eqn:Hrule.
  - destruct (rule_ttl cfg r <? 0)%Z; [done|].
    unfold define_fallthrough.
    assert (defined (<[model p := binding_of_rule cfg r]> c) (model p) = true) as ->; [|done].
    apply defined_true. rewrite lookup_insert_eq. eauto.
  - unfold define_fallthrough. apply defined_false in Hnone as ->. rewrite Hexm. simpl.
    destruct (has_rule cfg (model p)) eqn:Hhas.
    + rewrite excludedCacheMethodsInModels_excludes; [done| |by apply has_rule_true].
      intros r Hr Hm. by eapply defining_rule_None.
    + assert (excludedCacheMethodsInModels cfg p = None) as ->.
      { destruct (excludedCacheMethodsInModels cfg p) as [r|] eqn:Hfind; [|done].
        apply excludedCacheMethodsInModels_elem in Hfind as [Hr Hm].
        by destruct (proj1 (has_rule_false cfg (model p)) Hhas r Hr). }
      done.
Qed.

(** Registration, whatever the state: it throws at most for a model without
    function and then changes nothing; otherwise it leaves the functions as
    they are or adds the binding the call creates for its model. *)
Lemma register_run_cases cfg p c :
  register_run cfg p c
  = match c !! model p with
    | Some _ => (Fulfilled tt, c)
    | None =>
        match created_binding cfg p with
        | Some b => (Fulfilled tt, <[model p := b]> c)
        | None => (fst (register_run cfg p c), c)
        end
    end.
Proof.
  destruct (c !! model p) as [b|] eqn:Hc; [by eapply register_run_defined|].
  unfold created_binding.
  destruct (includes (cfg_excludeModels cfg) (model p)) eqn:Hexm; simpl.
  { by rewrite register_run_excluded_model. }
  destruct (includes (excludedCacheMethods cfg) (operation p)) eqn:Hexo.
  { by rewrite register_run_excluded_method. }
  rewrite register_run_absent by done.
  destruct (defining_rule cfg p) as [r|];
    [by destruct (rule_ttl cfg r <? 0)%Z | by destruct (has_rule cfg (model p))].
Qed.

(** The functions defined after registration. *)
Lemma register_cases cfg p c :
  register cfg p c
  = match c !! model p, created_binding cfg p with
    | None, Some b => <[model p := b]> c
    | _, _ => c
    end.
Proof.
  unfold register. rewrite register_run_cases.
  destruct (c !! model p); [done|]. by destruct (created_binding cfg p).
Qed.

(** When [cache.define] throws, the model had no function and gets none. *)
Lemma register_run_throws cfg p c e :
  fst (register_run cfg p c) = Rejected e →
  c !! model p = None ∧ created_binding cfg p = None ∧ register cfg p c = c.
Proof.
  intros Hthrows. rewrite register_cases. rewrite register_run_cases in Hthrows.
  destruct (c !! model p); [discriminate|].
  by destruct (created_binding cfg p); [discriminate|].
Qed.

(** A binding the call creates comes from the configuration. *)
Lemma created_binding_from_cfg cfg p b :
  created_binding cfg p = Some b → binding_from_cfg cfg (model p) b.
Proof.
  unfold created_binding. destruct (_ || _); [discriminate|].
  destruct (defining_rule cfg p) as [r|] eqn:Hrule.
  - destruct (rule_ttl cfg r <? 0)%Z; [discriminate|]. intros [= <-].
    apply defining_rule_Some in Hrule as (Hr & Hm & _). left. eauto.
  - destruct (has_rule cfg (model p)) eqn:Hhas; [discriminate|]. intros [= <-].
    right. split; [by apply has_rule_false | done].
Qed.

(** Registration never touches a function that is already defined. *)
Lemma register_preserves cfg p c name b :
  c !! name = Some b → register cfg p c !! name = Some b.
Proof.
  intros Hb. rewrite register_cases.
  destruct (c !! model p) eqn:Hc; [done|].
  destruct (created_binding cfg p); [|done].
  rewrite lookup_insert_ne; [done | congruence].
Qed.

(** Registration only ever defines the function of the model at hand. *)
Lemma register_other cfg p c name :
  name ≠ model p → register cfg p c !! name = c !! name.
Proof.
  intros Hne. rewrite register_cases.
  destruct (c !! model p); [done|].
  destruct (created_binding cfg p); [|done].
  by rewrite lookup_insert_ne.
Qed.

(** Every binding registration adds comes from the configuration: from a rule
    of the model, or from the defaults when the model has no rule. *)
Lemma register_origin cfg p c name b :
  c !! name = None → register cfg p c !! name = Some b →
  name = model p ∧ binding_from_cfg cfg name b.
Proof.
  intros Hc Hb.
  destruct (decide (name = model p)) as [->|Hne];
    [split; [done|] | by rewrite register_other, Hc in Hb].
  rewrite register_cases, Hc in Hb.
  destruct (created_binding cfg p) as [b'|] eqn:Hcreated; [|congruence].
  rewrite lookup_insert_eq in Hb. injection Hb as <-.
  by apply created_binding_from_cfg.
Qed.

(** The binding a call finds after registration when its model had none. *)
Lemma register_created cfg p c :
  c !! model p = None → register cfg p c !! model p = created_binding cfg p.
Proof.
  intros Hc. rewrite register_cases, Hc.
  destruct (created_binding cfg p); [by rewrite lookup_insert_eq | done].
Qed.

(** *** Frame rules

    Most steps of the hook leave most of the world alone.  A relation [R]
    between the world before and the world after that is a preorder is kept by
    the monadic glue; whether a primitive step keeps it is asked of the
    relation. *)

Section Frame.

Context (R : World → World → Prop) `{!PreOrder R}.

Local Abbreviation respects := (respects R).

Lemma respects_ret {A} (a : A) : respects (ret a).
Proof. intros w. simpl. reflexivity. Qed.

Lemma respects_throw {A} (e : string) : respects (@throw A e).
Proof. intros w. simpl. reflexivity. Qed.

Lemma respects_gets {A} (f : World → A) : respects (gets f).
Proof. intros w. simpl. reflexivity. Qed.

Lemma respects_modify (f : World → World) : (∀ w, R w (f w)) → respects (modify f).
Proof. intros Hf w. apply Hf. Qed.

Lemma respects_bind {A B} (m : M A) (k : A → M B) :
  respects m → (∀ a, respects (k a)) → respects (bind m k).
Proof.
  intros Hm Hk w. unfold bind. specialize (Hm w).
  destruct (m w) as [[a|e] w']; simpl in *; [|done].
  etransitivity; [exact Hm | apply Hk].
Qed.

Lemma respects_try_catch {A} (m : M A) (h : string → M A) :
  respects m → (∀ e, respects (h e)) → respects (try_catch m h).
Proof.
  intros Hm Hh w. unfold try_catch. specialize (Hm w).
  destruct (m w) as [[a|e] w']; simpl in *; [done|].
  etransitivity; [exact Hm | apply Hh].
Qed.

Lemma respects_all_settled (ms : list (M unit)) (w : World) :
  Forall respects ms → R w (snd (all_settled ms w)).
Proof.
  intros Hms. revert w. induction Hms as [|m ms Hm _ IH]; intros w; simpl; [reflexivity|].
  specialize (Hm w). destruct (m w) as [r w1]. specialize (IH w1).
  destruct (all_settled ms w1) as [rs w2]. simpl in *. by etransitivity.
Qed.

Lemma respects_promise_all (env : Faults) (ms : list (M unit)) :
  Forall respects ms → respects (promise_all env ms).
Proof.
  intros Hms w. unfold promise_all.
  pose proof (respects_all_settled ms w Hms) as Hw.
  by destruct (all_settled ms w) as [rs w'].
Qed.

Hypothesis R_log : ∀ ev w, R w (log ev w).
Hypothesis R_db : ∀ d w, R w (set_db d w).

Lemma respects_emit ev : respects (emit ev).
Proof. apply respects_modify, R_log. Qed.

Lemma respects_fetchFromPrisma p : respects (fetchFromPrisma p).
Proof.
  apply respects_bind; [apply respects_emit | intros _; apply respects_ret].
Qed.

Lemma respects_settle pr : respects (settle pr).
Proof.
  intros w. unfold settle. destruct (pr (db w)) as [r d]. simpl.
  etransitivity; [apply (R_db d) | apply R_log].
Qed.

Lemma respects_await_fetchFromPrisma p : respects (await_fetchFromPrisma p).
Proof.
  apply respects_bind; [apply respects_fetchFromPrisma | intros ?; apply respects_settle].
Qed.

Lemma respects_return_pending body pr :
  respects body → respects (return_pending body pr).
Proof.
  intros Hb w. unfold return_pending. specialize (Hb w).
  destruct (body w) as [r w1]. pose proof (respects_settle pr w1) as Hs.
  destruct (settle pr w1) as [v w2]. simpl in *. by etransitivity.
Qed.

Hypothesis R_filter : ∀ f w, R w (set_storage (List.filter f) w).

Lemma respects_invalidateAll env pattern : respects (invalidateAll env pattern).
Proof.
  unfold invalidateAll. apply respects_bind; [apply respects_emit | intros _].
  destruct (invalidateFault env pattern);
    [apply respects_throw | apply respects_modify, R_filter].
Qed.

Lemma respects_invalidate_related env r : respects (invalidate_related env r).
Proof.
  unfold invalidate_related. destruct (ModelConfig.invalidateRelated r) as [related|];
    [|apply respects_ret].
  apply respects_promise_all, Forall_forall. intros m Hm.
  apply list_elem_of_In, in_map_iff in Hm as (x & <- & _). apply respects_invalidateAll.
Qed.

Lemma respects_invalidate cfg env p : respects (invalidate cfg env p).
Proof.
  unfold invalidate.
  apply respects_bind; [apply respects_invalidateAll | intros _].
  apply respects_bind; [apply respects_emit | intros _].
  apply respects_promise_all, Forall_forall. intros m Hm.
  apply list_elem_of_In, in_map_iff in Hm as (x & <- & _). apply respects_invalidate_related.
Qed.

Lemma respects_query_directly cfg env p : respects (query_directly cfg env p).
Proof.
  unfold query_directly.
  apply respects_bind; [apply respects_fetchFromPrisma | intros pr].
  apply respects_return_pending.
  destruct (includes _ _); [apply respects_invalidate | apply respects_ret].
Qed.

Hypothesis R_append : ∀ en w, R w (set_storage (λ s, s ++ [en]) w).

Lemma respects_cacheFunction env name b p : respects (cacheFunction env name b p).
Proof.
  unfold cacheFunction.
  assert (respects
    (s <- gets storage ;;
     match lookup_entry name (callKey p) s with
     | Some en => emit (EvCacheHit name (callKey p)) ;;; ret (e_value en)
     | None =>
         emit (EvCacheMiss name (callKey p)) ;;;
         v <- await_fetchFromPrisma p ;;
         match cacheFault env with
         | FaultOnSet e => throw e
         | _ =>
             if (ttl b <? 1)%Z then ret v
             else
               modify (set_storage (λ s, s ++ [new_entry name b (callKey p) v])) ;;;
               emit (EvCacheSet name (callKey p) (references b (callKey p))) ;;;
               ret v
         end
     end)) as Hbody.
  { apply respects_bind; [apply respects_gets | intros s].
    destruct (lookup_entry _ _ s).
    - apply respects_bind; [apply respects_emit | intros _; apply respects_ret].
    - apply respects_bind; [apply respects_emit | intros _].
      apply respects_bind; [apply respects_await_fetchFromPrisma | intros v].
      assert (respects
        (if (ttl b <? 1)%Z then ret v
         else
           modify (set_storage (λ s, s ++ [new_entry name b (callKey p) v])) ;;;
           emit (EvCacheSet name (callKey p) (references b (callKey p))) ;;;
           ret v)) as Hset.
      { destruct (ttl b <? 1)%Z; [apply respects_ret|].
        apply respects_bind; [apply respects_modify, R_append | intros _].
        apply respects_bind; [apply respects_emit | intros _; apply respects_ret]. }
      destruct (cacheFault env); [done | done | apply respects_throw]. }
  destruct (cacheFault env); [done | apply respects_throw | done].
Qed.

Lemma respects_query_through_cache env b p : respects (query_through_cache env b p).
Proof.
  unfold query_through_cache.
  apply respects_try_catch; [apply respects_cacheFunction | intros err].
  apply respects_bind; [apply respects_await_fetchFromPrisma | intros v].
  apply respects_bind; [apply respects_emit | intros _; apply respects_ret].
Qed.

End Frame.

#[local] Instance same_cache_preorder : PreOrder same_cache.
Proof.
  split; [by intros x | intros x y z Hxy Hyz; unfold same_cache in *; congruence].
Qed.

#[local] Instance storage_shrinks_preorder : PreOrder storage_shrinks.
Proof. split; [by intros x e He | intros x y z Hxy Hyz e He; auto]. Qed.

#[local] Instance trace_extends_preorder : PreOrder trace_extends.
Proof.
  split; [intros x; unfold trace_extends; reflexivity |].
  intros x y z Hxy Hyz; unfold trace_extends in *; by etransitivity.
Qed.

Lemma storage_shrinks_filter f w : storage_shrinks w (set_storage (List.filter f) w).
Proof.
  intros e He. simpl in He. apply list_elem_of_In, filter_In in He as [He _].
  by apply list_elem_of_In.
Qed.

Lemma storage_shrinks_same w w' : storage w' = storage w → storage_shrinks w w'.
Proof. intros Heq e. by rewrite Heq. Qed.

Lemma trace_extends_log ev w : trace_extends w (log ev w).
Proof. unfold trace_extends. simpl. by apply prefix_app_r. Qed.

Lemma trace_extends_same w w' : trace w' = trace w → trace_extends w w'.
Proof. unfold trace_extends. by intros ->. Qed.

(** *** The shape of one call *)

Lemma set_cache_same (f : gmap string Binding → gmap string Binding) (w : World) :
  f (cache w) = cache w → set_cache f w = w.
Proof. intros Hf. destruct w. unfold set_cache. simpl in *. by rewrite Hf. Qed.

Lemma cacheable_Some cfg p c b :
  cacheable cfg p c = Some b →
  c !! model p = Some b
  ∧ includes (cfg_excludeModels cfg) (model p) = false
  ∧ includes (excludedCacheMethods cfg) (operation p) = false
  ∧ includes defaultMutationMethods (operation p) = false.
Proof.
  unfold cacheable.
  destruct (includes (cfg_excludeModels cfg) (model p)); simpl; [done|].
  destruct (includes (excludedCacheMethods cfg) (operation p)); simpl; [done|].
  destruct (includes defaultMutationMethods (operation p)); simpl; done.
Qed.

(** A call whose registration throws rejects with that error and leaves the
    world as it is: nothing is defined, asked or stored. *)
Lemma allOperations_throws cfg env p w e :
  fst (register_run cfg p (cache w)) = Rejected e →
  allOperations cfg env p w = (Rejected e, w).
Proof.
  intros Hthrows. unfold allOperations, registration, bind. simpl. rewrite Hthrows.
  apply register_run_throws in Hthrows as (_ & _ & Hreg).
  by rewrite set_cache_same.
Qed.

(** A call that finds a cache function to go through has not thrown. *)
Lemma cacheable_registered cfg p c b :
  cacheable cfg p (register cfg p c) = Some b →
  fst (register_run cfg p c) = Fulfilled tt.
Proof.
  intros Hc. destruct (fst (register_run cfg p c)) as [[]|e] eqn:Hrun; [done|].
  apply register_run_throws in Hrun as (Hnone & _ & Hreg). rewrite Hreg in Hc.
  apply cacheable_Some in Hc as [Hb _]. congruence.
Qed.

Lemma allOperations_through_cache cfg env p w b :
  cacheable cfg p (register cfg p (cache w)) = Some b →
  allOperations cfg env p w
  = query_through_cache env b p (set_cache (register cfg p) w).
Proof.
  intros Hc. unfold allOperations, registration, bind, gets. simpl.
  by rewrite (cacheable_registered cfg p (cache w) b Hc), Hc.
Qed.

Lemma allOperations_directly cfg env p w :
  fst (register_run cfg p (cache w)) = Fulfilled tt →
  cacheable cfg p (register cfg p (cache w)) = None →
  allOperations cfg env p w = query_directly cfg env p (set_cache (register cfg p) w).
Proof.
  intros Hrun Hc. unfold allOperations, registration, bind, gets. simpl.
  by rewrite Hrun, Hc.
Qed.

(** The three ways a call can go. *)
Lemma allOperations_cases cfg env p w :
  (∃ e, fst (register_run cfg p (cache w)) = Rejected e
        ∧ allOperations cfg env p w = (Rejected e, w))
  ∨ (∃ b, cacheable cfg p (register cfg p (cache w)) = Some b
          ∧ allOperations cfg env p w
            = query_through_cache env b p (set_cache (register cfg p) w))
  ∨ (fst (register_run cfg p (cache w)) = Fulfilled tt
     ∧ cacheable cfg p (register cfg p (cache w)) = None
     ∧ allOperations cfg env p w
       = query_directly cfg env p (set_cache (register cfg p) w)).
Proof.
  destruct (fst (register_run cfg p (cache w))) as [[]|e] eqn:Hrun.
  - destruct (cacheable cfg p (register cfg p (cache w))) as [b|] eqn:Hc.
    + right. left. exists b. split; [done|]. by apply allOperations_through_cache.
    + right. right. split; [done|]. split; [done|]. by apply allOperations_directly.
  - left. exists e. split; [done|]. by apply allOperations_throws.
Qed.

(** Only registration changes the functions defined on the cache object. *)
Lemma allOperations_cache cfg env p w :
  cache (snd (allOperations cfg env p w)) = register cfg p (cache w).
Proof.
  destruct (allOperations_cases cfg env p w)
    as [ (e & Hrun & ->) | [ (b & Hc & ->) | (Hrun & Hc & ->) ] ].
  - apply register_run_throws in Hrun as (_ & _ & Hreg). by rewrite Hreg.
  - apply (respects_query_through_cache same_cache); done.
  - apply (respects_query_directly same_cache); done.
Qed.

(** The hook only ever appends to the trace. *)
Lemma allOperations_trace cfg env p w :
  trace w `prefix_of` trace (snd (allOperations cfg env p w)).
Proof.
  destruct (allOperations_cases cfg env p w)
    as [ (e & Hrun & ->) | [ (b & Hc & ->) | (Hrun & Hc & ->) ] ]; [done|..];
    change (trace w) with (trace (set_cache (register cfg p) w)).
  - apply (respects_query_through_cache trace_extends);
      first [apply trace_extends_log | by intros; apply trace_extends_same].
  - apply (respects_query_directly trace_extends);
      first [apply trace_extends_log | by intros; apply trace_extends_same].
Qed.

Lemma run_cons cfg call calls w :
  run cfg (call :: calls) w = run cfg calls (snd (allOperations cfg call.1 call.2 w)).
Proof. done. Qed.

Lemma run_app cfg calls1 calls2 w :
  run cfg (calls1 ++ calls2) w = run cfg calls2 (run cfg calls1 w).
Proof. unfold run. by rewrite foldl_app. Qed.

(** A function that is defined stays what it is, whatever is called next. *)
Lemma run_preserves cfg calls w name b :
  cache w !! name = Some b → cache (run cfg calls w) !! name = Some b.
Proof.
  revert w. induction calls as [|[env p] calls IH]; intros w Hb; [done|].
  rewrite run_cons. apply IH. rewrite allOperations_cache. by apply register_preserves.
Qed.

(** *** Registration is idempotent *)

Lemma run_keeps_absent cfg calls w name :
  cache w !! name = None →
  (∀ env p, (env, p) ∈ calls → model p = name → created_binding cfg p = None) →
  cache (run cfg calls w) !! name = None.
Proof.
  revert w. induction calls as [|[env p] calls IH]; intros w Hnone Hcalls; [done|].
  rewrite run_cons. apply IH.
  - rewrite allOperations_cache. cbn [fst snd].
    destruct (decide (name = model p)) as [->|Hne].
    + rewrite register_created by done. apply (Hcalls env p); [left | done].
    + by rewrite register_other.
  - intros env' p' Hin. apply (Hcalls env' p'). by right.
Qed.

(** C6 (amended).  The cache function of a model T is created by the first
    call of the hook on T, read or mutation, for which T is not in
    [excludeModels], the operation is not an excluded cache method, and one
    of these holds: some rule names T without excluding the operation, and
    the first such rule does not ask for a negative ttl (that rule then gives
    the binding its tag key and ttl; with a negative ttl [cache.define]
    throws, the call rejects and nothing is defined); or no rule names T at
    all (the binding then gets the defaults).  Every other call leaves T
    without a function.  Once the binding exists, whatever is called
    afterwards finds it unchanged: no second one is created and its tag key
    and ttl are never updated. *)
Theorem binding_registered_once cfg env p w :
  (∀ name b calls,
     cache w !! name = Some b → cache (run cfg calls w) !! name = Some b)
  ∧ (cache w !! model p = None →
     cache (snd (allOperations cfg env p w)) !! model p
     = if includes (cfg_excludeModels cfg) (model p)
          || includes (excludedCacheMethods cfg) (operation p)
       then None
       else
         match defining_rule cfg p with
         | Some r =>
             if (number_or (ModelConfig.cacheTime r) (cfg_cacheTime cfg) <? 0)%Z then None
             else Some (binding_of_rule cfg r)
         | None =>
             if existsb (λ r, String.eqb (ModelConfig.model r) (model p)) (cfg_models cfg)
             then None
             else Some (binding_of_model cfg (model p))
         end)
  ∧ (∀ before after b,
       cache w !! model p = None →
       (∀ env' p', (env', p') ∈ before → model p' = model p →
                   created_binding cfg p' = None) →
       created_binding cfg p = Some b →
       cache (run cfg (before ++ (env, p) :: after) w) !! model p = Some b).
Proof.
  split; [|split].
  - intros name b calls Hb. by apply run_preserves.
  - intros Hnone. rewrite allOperations_cache. by apply register_created.
  - intros before after b Hnone Hbefore Hcreated.
    rewrite run_app, run_cons. apply run_preserves.
    rewrite allOperations_cache. cbn [fst snd].
    rewrite register_created by (by apply run_keeps_absent).
    done.
Qed.

(** *** The global method exclusion *)

Lemma excludedCacheMethods_with_excludeMethod m cfg :
  includes defaultCacheMethods m = false →
  excludedCacheMethods (with_excludeMethod m cfg) = excludedCacheMethods cfg.
Proof.
  intros Hm. unfold excludedCacheMethods. apply filter_ext_in. intros x Hx.
  unfold with_excludeMethod, cfg_excludeMethods at 1. simpl.
  destruct (String.eqb_spec x m) as [->|]; [|done].
  apply list_elem_of_In, includes_true_iff in Hx. congruence.
Qed.

Lemma forEach_rule_with_excludeMethod m cfg p rules c :
  forEach_rule (with_excludeMethod m cfg) p rules c = forEach_rule cfg p rules c.
Proof.
  revert c. induction rules as [|r rules IH]; intros c; [done|]. simpl.
  change (define_for_rule (with_excludeMethod m cfg) p c r) with (define_for_rule cfg p c r).
  destruct (define_for_rule cfg p c r) as [[[]|e] c']; [apply IH | done].
Qed.

Lemma register_run_with_excludeMethod m cfg p c :
  includes defaultCacheMethods m = false →
  register_run (with_excludeMethod m cfg) p c = register_run cfg p c.
Proof.
  intros Hm. unfold register_run.
  rewrite (excludedCacheMethods_with_excludeMethod m cfg Hm).
  change (cfg_models (with_excludeMethod m cfg)) with (cfg_models cfg).
  rewrite forEach_rule_with_excludeMethod. reflexivity.
Qed.

(** C10.  The names the hook treats as excluded are the default cache methods
    that [excludeMethods] lists: a name is excluded exactly when it is in both
    lists.  Listing a name that is not a default cache method changes nothing:
    the hook behaves as if the name had not been listed. *)
Theorem excludeMethods_only_default_cache_methods cfg :
  (∀ op, includes (excludedCacheMethods cfg) op
         = includes defaultCacheMethods op && includes (cfg_excludeMethods cfg) op)
  ∧ (∀ m, includes defaultCacheMethods m = false →
          includes (excludedCacheMethods (with_excludeMethod m cfg)) m = false
          ∧ ∀ env p w,
              allOperations (with_excludeMethod m cfg) env p w = allOperations cfg env p w).
Proof.
  split.
  - intros op. unfold excludedCacheMethods. apply includes_filter.
  - intros m Hm. pose proof (excludedCacheMethods_with_excludeMethod m cfg Hm) as Heq.
    split.
    + unfold excludedCacheMethods. rewrite includes_filter, Hm. done.
    + intros env p w.
      assert (∀ c, register_run (with_excludeMethod m cfg) p c = register_run cfg p c)
        as Hrun by (intros c; by apply register_run_with_excludeMethod).
      assert (∀ c, cacheable (with_excludeMethod m cfg) p c = cacheable cfg p c) as Hcan
        by (intros c; unfold cacheable; by rewrite Heq).
      unfold allOperations, registration, register, bind, gets, set_cache. simpl.
      rewrite !Hrun, Hcan. reflexivity.
Qed.

(** *** Falling back to the real executor *)

(** C1.  When the hook sends a read through the cache function of its model
    (the model is not excluded, the operation is neither an excluded cache
    method nor a mutation, and the function is defined) and the cache function
    throws, the hook answers with what the real executor answers when it is
    called directly afterwards: its value when it fulfils, in which case the
    error of the cache layer is only written to the console, and its own error
    when it rejects. *)
Theorem cache_failure_falls_back cfg env p w cacheFn err w1 :
  cacheable cfg p (register cfg p (cache w)) = Some cacheFn →
  cacheFunction env (model p) cacheFn p (set_cache (register cfg p) w) = (Rejected err, w1) →
  fst (allOperations cfg env p w) = fst (query p (args p) (db w1))
  ∧ (∀ v, fst (query p (args p) (db w1)) = Fulfilled v →
          last (trace (snd (allOperations cfg env p w))) = Some (EvConsoleError err))
  ∧ (∀ e, fst (query p (args p) (db w1)) = Rejected e →
          EvConsoleError err ∉ drop (length (trace w1)) (trace (snd (allOperations cfg env p w)))).
Proof.
  intros Hcacheable Hthrows. rewrite (allOperations_through_cache _ _ _ _ _ Hcacheable).
  unfold query_through_cache, try_catch. rewrite Hthrows.
  unfold await_fetchFromPrisma, fetchFromPrisma, settle, bind, emit, modify, ret. simpl.
  destruct (query p (args p) (db w1)) as [[v|e] d]; simpl.
  - split; [done|]. split; [|discriminate].
    intros _ _. by rewrite last_snoc.
  - split; [done|]. split; [discriminate|].
    intros _ _. rewrite <- !app_assoc, drop_app_length. simpl.
    rewrite !elem_of_cons. intros [?|[?|?%elem_of_nil]]; done.
Qed.

(** *** What a call can add to the store *)

(** The cache function stores at most one entry: the result of the real
    executor, under the references of the binding for the call key. *)
Lemma cacheFunction_storage env name b p w e :
  e ∈ storage (snd (cacheFunction env name b p w)) →
  e ∈ storage w ∨ ∃ v, e = new_entry name b (callKey p) v.
Proof.
  unfold cacheFunction, await_fetchFromPrisma, fetchFromPrisma, settle,
    bind, gets, emit, modify, ret, throw.
  destruct (cacheFault env) as [|e1|e2]; simpl; auto;
    destruct (lookup_entry name (callKey p) (storage w)); simpl; auto;
    destruct (query p (args p) (db w)) as [[v|e'] d]; simpl; auto;
    destruct (ttl b <? 1)%Z; simpl; auto.
  rewrite elem_of_app, list_elem_of_singleton. intros [ ? | -> ]; eauto.
Qed.

Lemma query_through_cache_storage env b p w e :
  e ∈ storage (snd (query_through_cache env b p w)) →
  e ∈ storage w ∨ ∃ v, e = new_entry (model p) b (callKey p) v.
Proof.
  unfold query_through_cache, try_catch.
  pose proof (cacheFunction_storage env (model p) b p w e) as Hcf.
  destruct (cacheFunction env (model p) b p w) as [[v|err] w1]; simpl in *; [done|].
  intros He. apply Hcf. clear Hcf. revert e He.
  change (storage_shrinks w1
    (snd ((result <- await_fetchFromPrisma p ;; emit (EvConsoleError err) ;;; ret result) w1))).
  apply (respects_bind storage_shrinks);
    [apply (respects_await_fetchFromPrisma storage_shrinks);
       by intros; apply storage_shrinks_same |].
  intros v. apply (respects_bind storage_shrinks);
    [apply (respects_emit storage_shrinks); by intros; apply storage_shrinks_same |].
  intros _. apply respects_ret, _.
Qed.

(** A call that does not go through the cache function adds nothing. *)
Lemma query_directly_storage cfg env p w e :
  e ∈ storage (snd (query_directly cfg env p w)) → e ∈ storage w.
Proof.
  revert e. change (storage_shrinks w (snd (query_directly cfg env p w))).
  apply (respects_query_directly storage_shrinks);
    first [apply storage_shrinks_filter | by intros; apply storage_shrinks_same].
Qed.

Lemma allOperations_storage cfg env p w e :
  e ∈ storage (snd (allOperations cfg env p w)) →
  e ∈ storage w
  ∨ ∃ b v, cacheable cfg p (register cfg p (cache w)) = Some b
           ∧ e = new_entry (model p) b (callKey p) v.
Proof.
  destruct (allOperations_cases cfg env p w)
    as [ (err & Hrun & ->) | [ (b & Hc & ->) | (Hrun & Hc & ->) ] ]; intros He.
  - by left.
  - apply query_through_cache_storage in He as [ He | [v ->] ]; [by left | right; eauto].
  - left. by apply query_directly_storage in He.
Qed.

(** *** Bindings come from the configuration *)

Lemma register_from_cfg cfg p c :
  (∀ name b, c !! name = Some b → binding_from_cfg cfg name b) →
  ∀ name b, register cfg p c !! name = Some b → binding_from_cfg cfg name b.
Proof.
  intros Hc name b Hb. destruct (c !! name) as [b0|] eqn:Hname.
  - rewrite (register_preserves cfg p c name b0 Hname) in Hb. injection Hb as <-. eauto.
  - by destruct (register_origin cfg p c name b Hname Hb).
Qed.

Lemma run_from_cfg cfg calls w :
  (∀ name b, cache w !! name = Some b → binding_from_cfg cfg name b) →
  ∀ name b, cache (run cfg calls w) !! name = Some b → binding_from_cfg cfg name b.
Proof.
  revert w. induction calls as [|[env p] calls IH]; intros w Hw; [done|].
  rewrite run_cons. apply IH. rewrite allOperations_cache. by apply register_from_cfg.
Qed.

Lemma init_from_cfg cfg d name b :
  cache (init d) !! name = Some b → binding_from_cfg cfg name b.
Proof. simpl. by rewrite lookup_empty. Qed.

(** C7 (amended).  Whatever was called before, an entry that a call of the
    hook adds to the store carries exactly one reference, the string
    [<tagKey>~<callKey>]: [callKey] is the serialization of the model, the
    operation and the arguments of the call, and [tagKey] is the [cacheKey] of
    a rule of the model when that rule has one and it is not the empty string,
    and the model name otherwise (also when the model has no rule). *)
Theorem stored_tag_shape cfg calls d env p e :
  e ∈ storage (snd (allOperations cfg env p (run cfg calls (init d)))) →
  e ∈ storage (run cfg calls (init d))
  ∨ ∃ tk,
      e_references e = [tk +:+ "~" +:+ serialize (model p) (operation p) (args p)]
      ∧ ((∃ r, r ∈ cfg_models cfg ∧ ModelConfig.model r = model p
               ∧ tk = match ModelConfig.cacheKey r with
                      | Some EmptyString | None => model p
                      | Some k => k
                      end)
         ∨ ((∀ r, r ∈ cfg_models cfg → ModelConfig.model r ≠ model p) ∧ tk = model p)).
Proof.
  intros He. apply allOperations_storage in He as [ He | (b & v & Hc & ->) ]; [by left|].
  right. exists (tagKey b). split; [done|].
  apply cacheable_Some in Hc as [Hb _].
  assert (binding_from_cfg cfg (model p) b) as [ (r & Hin & Hm & ->) | [Hno ->] ].
  { eapply register_from_cfg; [|exact Hb].
    apply run_from_cfg, init_from_cfg. }
  - left. exists r. repeat split; [done..|].
    unfold binding_of_rule, string_or. simpl. rewrite Hm.
    by destruct (ModelConfig.cacheKey r) as [[|]|].
  - right. done.
Qed.

(** C8 (amended).  Whatever was called, the ttl of a binding is the
    [cacheTime] of a rule of its model when that rule has one and it is not
    zero, and the global [cacheTime] otherwise (also when the model has no
    rule); the global [cacheTime] is 0 when the configuration gives none. *)
Theorem binding_ttl cfg calls d name b :
  cache (run cfg calls (init d)) !! name = Some b →
  ((∃ r, r ∈ cfg_models cfg ∧ ModelConfig.model r = name
         ∧ ttl b = match ModelConfig.cacheTime r with
                   | Some t => if (t =? 0)%Z then cfg_cacheTime cfg else t
                   | None => cfg_cacheTime cfg
                   end)
   ∨ ((∀ r, r ∈ cfg_models cfg → ModelConfig.model r ≠ name)
      ∧ ttl b = cfg_cacheTime cfg))
  ∧ (cacheTime cfg = None → cfg_cacheTime cfg = 0%Z).
Proof.
  intros Hb. split.
  - assert (binding_from_cfg cfg name b) as [ (r & Hin & Hm & ->) | [Hno ->] ].
    { eapply run_from_cfg; [|exact Hb]. apply init_from_cfg. }
    + left. exists r. done.
    + right. done.
  - unfold cfg_cacheTime. by intros ->.
Qed.

(** *** The invalidation fan-out *)

Lemma related_models_elem cfg p m :
  m ∈ related_models cfg p ↔
  ∃ r related, r ∈ cfg_models cfg ∧ ModelConfig.model r = model p
               ∧ ModelConfig.invalidateRelated r = Some related ∧ m ∈ related.
Proof.
  unfold related_models. rewrite list_elem_of_In, in_flat_map. split.
  - intros (r & Hr & Hm). apply filter_In in Hr as [Hin Heq].
    apply String.eqb_eq in Heq. apply list_elem_of_In in Hin, Hm.
    destruct (ModelConfig.invalidateRelated r) as [related|] eqn:Hrel; simpl in Hm.
    + eauto 10.
    + inversion Hm.
  - intros (r & related & Hin & Heq & Hrel & Hm). exists r. split.
    + apply filter_In. split; [by apply list_elem_of_In | by apply String.eqb_eq].
    + rewrite Hrel. simpl. by apply list_elem_of_In.
Qed.

Lemma rejections_elem rs e : e ∈ rejections rs ↔ Rejected e ∈ rs.
Proof.
  induction rs as [|[[]|e0] rs IH]; simpl.
  - by rewrite !elem_of_nil.
  - rewrite elem_of_cons, IH. split; [by right|]. by intros [?|?].
  - rewrite !elem_of_cons, IH. split.
    + intros [ -> | ? ]; [by left | by right].
    + intros [ [= ->] | ? ]; [by left | by right].
Qed.

Lemma rejections_nil rs r : rejections rs = [] → r ∈ rs → r = Fulfilled tt.
Proof.
  induction rs as [|[[]|e0] rs IH]; simpl; intros Hnil Hin; [inversion Hin | | done].
  apply elem_of_cons in Hin as [ -> | Hin ]; [done | by apply IH].
Qed.

Lemma promise_all_world env ms w : snd (promise_all env ms w) = snd (all_settled ms w).
Proof. unfold promise_all. by destruct (all_settled ms w). Qed.

(** [Promise.all] fulfils when nothing rejects, and otherwise rejects with
    one of the rejections. *)
Lemma promise_all_outcome env ms w :
  match fst (promise_all env ms w) with
  | Fulfilled _ => rejections (fst (all_settled ms w)) = []
  | Rejected e => e ∈ rejections (fst (all_settled ms w))
  end.
Proof.
  unfold promise_all. destruct (all_settled ms w) as [rs w']. cbn [fst snd].
  destruct (rejections rs) as [|e es]; [done|].
  apply list_elem_of_In, nth_In, Nat.mod_upper_bound. done.
Qed.

Lemma settles_as_fault_results env patterns r :
  match r with
  | Fulfilled _ => rejections (map (fault_result env) patterns) = []
  | Rejected e => e ∈ rejections (map (fault_result env) patterns)
  end →
  settles_as env patterns r.
Proof.
  destruct r as [[]|e]; simpl.
  - intros Hnil pat Hin.
    assert (fault_result env pat = Fulfilled tt) as Hpat.
    { apply (rejections_nil _ _ Hnil), list_elem_of_In, in_map, list_elem_of_In, Hin. }
    unfold fault_result in Hpat. by destruct (invalidateFault env pat).
  - rewrite rejections_elem, list_elem_of_In, in_map_iff.
    intros (pat & Heq & Hin). exists pat. split; [by apply list_elem_of_In|].
    unfold fault_result in Heq. destruct (invalidateFault env pat); congruence.
Qed.

(** One [invalidateAll] leaves one event, whether it fails or not. *)
Lemma invalidateAll_behaviour env pattern w :
  fst (invalidateAll env pattern w) = fault_result env pattern
  ∧ trace (snd (invalidateAll env pattern w)) = trace w ++ [EvInvalidateAll pattern].
Proof.
  unfold invalidateAll, fault_result, bind, emit, modify, throw. simpl.
  by destruct (invalidateFault env pattern).
Qed.

Lemma all_settled_invalidateAll env ms w :
  let patterns := map invalidation_pattern ms in
  fst (all_settled (map (λ m, invalidateAll env (invalidation_pattern m)) ms) w)
    = map (fault_result env) patterns
  ∧ trace (snd (all_settled (map (λ m, invalidateAll env (invalidation_pattern m)) ms) w))
    = trace w ++ map EvInvalidateAll patterns.
Proof.
  simpl. revert w. induction ms as [|m ms IH]; intros w; simpl.
  - by rewrite app_nil_r.
  - destruct (invalidateAll_behaviour env (invalidation_pattern m) w) as [Hr Ht].
    destruct (invalidateAll env (invalidation_pattern m) w) as [r w1]. simpl in *.
    destruct (IH w1) as [Hrs Hts].
    destruct (all_settled _ w1) as [rs w2]. simpl in *.
    rewrite Hts, Ht, <- app_assoc. simpl. by rewrite Hr, Hrs.
Qed.

(** [Promise.all] over the related models of one rule: every deletion is
    started, and a failure among them is the failure of the whole. *)
Lemma promise_all_invalidateAll_behaviour env ms w :
  let patterns := map invalidation_pattern ms in
  settles_as env patterns
    (fst (promise_all env (map (λ m, invalidateAll env (invalidation_pattern m)) ms) w))
  ∧ trace (snd (promise_all env (map (λ m, invalidateAll env (invalidation_pattern m)) ms) w))
    = trace w ++ map EvInvalidateAll patterns.
Proof.
  simpl.
  pose proof (promise_all_outcome env
                (map (λ m, invalidateAll env (invalidation_pattern m)) ms) w) as Hout.
  rewrite promise_all_world.
  destruct (all_settled_invalidateAll env ms w) as [Hr Ht]. simpl in Hr, Ht.
  rewrite Hr in Hout. split; [by apply settles_as_fault_results | done].
Qed.

Lemma invalidate_related_behaviour env r w :
  let patterns := map invalidation_pattern (default [] (ModelConfig.invalidateRelated r)) in
  settles_as env patterns (fst (invalidate_related env r w))
  ∧ trace (snd (invalidate_related env r w)) = trace w ++ map EvInvalidateAll patterns.
Proof.
  unfold invalidate_related.
  destruct (ModelConfig.invalidateRelated r) as [related|]; simpl.
  - apply promise_all_invalidateAll_behaviour.
  - rewrite app_nil_r. split; [|done]. intros pat Hin. inversion Hin.
Qed.

Lemma all_settled_invalidate_related env rules w :
  Forall2
    (λ r res,
       settles_as env
         (map invalidation_pattern (default [] (ModelConfig.invalidateRelated r))) res)
    rules (fst (all_settled (map (invalidate_related env) rules) w))
  ∧ trace (snd (all_settled (map (invalidate_related env) rules) w))
    = trace w
      ++ map EvInvalidateAll
           (map invalidation_pattern
              (flat_map (λ r, default [] (ModelConfig.invalidateRelated r)) rules)).
Proof.
  revert w. induction rules as [|r rules IH]; intros w; simpl.
  - rewrite app_nil_r. split; [constructor | done].
  - destruct (invalidate_related_behaviour env r w) as [Hr Ht].
    destruct (invalidate_related env r w) as [res w1]. simpl in *.
    destruct (IH w1) as [Hrs Hts].
    destruct (all_settled _ w1) as [rs w2]. simpl in *.
    split; [by constructor|].
    by rewrite Hts, Ht, !map_app, <- app_assoc.
Qed.

Lemma settles_as_flat_map env rules rs :
  Forall2
    (λ r res,
       settles_as env
         (map invalidation_pattern (default [] (ModelConfig.invalidateRelated r))) res)
    rules rs →
  let patterns :=
    map invalidation_pattern
      (flat_map (λ r, default [] (ModelConfig.invalidateRelated r)) rules) in
  (rejections rs = [] → ∀ pat, pat ∈ patterns → invalidateFault env pat = None)
  ∧ (∀ e, e ∈ rejections rs → ∃ pat, pat ∈ patterns ∧ invalidateFault env pat = Some e).
Proof.
  simpl. induction 1 as [|r res rules rs Hr Hrs [IHnil IHrej]]; simpl.
  - split; [intros _ pat Hin; inversion Hin | intros e Hin; inversion Hin].
  - rewrite map_app. split.
    + intros Hnil pat Hin. apply elem_of_app in Hin as [Hin|Hin].
      * destruct res as [[]|e]; [by apply Hr | done].
      * apply IHnil; [|done]. by destruct res as [[]|e].
    + intros e Hin. destruct res as [[]|e0].
      * destruct (IHrej e Hin) as (pat & Hpat & Hfault).
        exists pat. split; [apply elem_of_app; by right | done].
      * apply elem_of_cons in Hin as [ -> | Hin ].
        -- destruct Hr as (pat & Hpat & Hfault).
           exists pat. split; [apply elem_of_app; by left | done].
        -- destruct (IHrej e Hin) as (pat & Hpat & Hfault).
           exists pat. split; [apply elem_of_app; by right | done].
Qed.

(** The outer [Promise.all], over the rules of the model. *)
Lemma promise_all_invalidate_related_behaviour env rules w :
  let patterns :=
    map invalidation_pattern
      (flat_map (λ r, default [] (ModelConfig.invalidateRelated r)) rules) in
  settles_as env patterns (fst (promise_all env (map (invalidate_related env) rules) w))
  ∧ trace (snd (promise_all env (map (invalidate_related env) rules) w))
    = trace w ++ map EvInvalidateAll patterns.
Proof.
  simpl.
  pose proof (promise_all_outcome env (map (invalidate_related env) rules) w) as Hout.
  rewrite promise_all_world.
  destruct (all_settled_invalidate_related env rules w) as [Hrs Ht].
  apply settles_as_flat_map in Hrs as [Hnil Hrej]. split; [|done].
  destruct (fst (promise_all env (map (invalidate_related env) rules) w)) as [[]|e]; simpl.
  - by apply Hnil.
  - by apply Hrej.
Qed.

#[local] Instance same_db_preorder : PreOrder same_db.
Proof.
  split; [intros x; by red | intros x y z Hxy Hyz; unfold same_db in *; congruence].
Qed.

#[local] Instance entry_kept_preorder e : PreOrder (entry_kept e).
Proof.
  split; [intros x; by red | intros x y z Hxy Hyz; unfold entry_kept in *; auto].
Qed.

(** Invalidation does not touch the source of truth. *)
Lemma invalidate_db cfg env p w : db (snd (invalidate cfg env p w)) = db w.
Proof. apply (respects_invalidate same_db); by intros. Qed.

Lemma invalidate_behaviour cfg env p w :
  let primary := invalidation_pattern (model p) in
  let related := map invalidation_pattern (related_models cfg p) in
  match invalidateFault env primary with
  | Some err =>
      fst (invalidate cfg env p w) = Rejected err
      ∧ trace (snd (invalidate cfg env p w)) = trace w ++ [EvInvalidateAll primary]
  | None =>
      settles_as env related (fst (invalidate cfg env p w))
      ∧ trace (snd (invalidate cfg env p w))
        = trace w
          ++ [EvInvalidateAll primary; EvConsoleLog ("Invalidated cache for " +:+ model p)]
          ++ map EvInvalidateAll related
  end.
Proof.
  simpl. unfold invalidate, invalidateAll, bind, emit, modify, throw. simpl.
  destruct (invalidateFault env (invalidation_pattern (model p))) as [err|]; simpl; [done|].
  match goal with |- context [promise_all env ?ms ?w0] =>
    destruct (promise_all_invalidate_related_behaviour env
                (List.filter (λ r, String.eqb (ModelConfig.model r) (model p)) (cfg_models cfg))
                w0) as [Hr Ht]
  end.
  simpl in *. split; [exact Hr|]. rewrite Ht. simpl. by rewrite <- !app_assoc.
Qed.

Lemma cacheable_mutation cfg p c :
  includes defaultMutationMethods (operation p) = true → cacheable cfg p c = None.
Proof. intros Hm. unfold cacheable. rewrite Hm. simpl. by rewrite !andb_false_r. Qed.

(** A mutation: the query is started, the invalidation runs, and the promise
    of the query is what the hook returns. *)
Lemma allOperations_mutation cfg env p w :
  includes defaultMutationMethods (operation p) = true →
  fst (register_run cfg p (cache w)) = Fulfilled tt →
  allOperations cfg env p w
  = return_pending (invalidate cfg env p) (query p (args p))
      (log EvQueryCalled (set_cache (register cfg p) w)).
Proof.
  intros Hm Hrun. rewrite allOperations_directly by (by try apply cacheable_mutation).
  unfold query_directly, fetchFromPrisma, bind, emit, modify, ret. simpl.
  by rewrite Hm.
Qed.

(** C4 (amended).  A wildcard deletion that fails during the fan-out of a
    mutation (one that [cache.invalidateAll] rejects with) is neither caught
    nor logged by the hook: it rejects the call, whatever the query answers.
    When the deletion for the model itself fails, no deletion for a related
    model is attempted.  When it succeeds, a deletion is attempted for every
    related model of every rule of the model, whether or not another one
    fails; the call then rejects with the error of one of the failing related
    deletions, and without any failure it settles as the query does.  This is
    a call whose registration has not thrown. *)
Theorem invalidation_failure_surfaces cfg env p w :
  includes defaultMutationMethods (operation p) = true →
  fst (register_run cfg p (cache w)) = Fulfilled tt →
  let primary := invalidation_pattern (model p) in
  let related := map invalidation_pattern (related_models cfg p) in
  let result := fst (query p (args p) (db w)) in
  match invalidateFault env primary with
  | Some err =>
      fst (allOperations cfg env p w) = Rejected err
      ∧ trace (snd (allOperations cfg env p w))
        = trace w ++ [EvQueryCalled; EvInvalidateAll primary; EvQuerySettled result]
  | None =>
      ((∀ pat, pat ∈ related → invalidateFault env pat = None) →
       fst (allOperations cfg env p w) = result)
      ∧ ((∃ pat err, pat ∈ related ∧ invalidateFault env pat = Some err) →
         ∃ pat err, pat ∈ related ∧ invalidateFault env pat = Some err
                    ∧ fst (allOperations cfg env p w) = Rejected err)
      ∧ trace (snd (allOperations cfg env p w))
        = trace w
          ++ [EvQueryCalled; EvInvalidateAll primary;
              EvConsoleLog ("Invalidated cache for " +:+ model p)]
          ++ map EvInvalidateAll related
          ++ [EvQuerySettled result]
  end.
Proof.
  intros Hm Hrun. simpl. rewrite allOperations_mutation by done.
  unfold return_pending, settle.
  set (w0 := log EvQueryCalled (set_cache (register cfg p) w)).
  pose proof (invalidate_behaviour cfg env p w0) as Hinv.
  pose proof (invalidate_db cfg env p w0) as Hdb.
  destruct (invalidate cfg env p w0) as [r w1]. simpl in *. rewrite Hdb.
  destruct (query p (args p) (db w)) as [res d]. simpl.
  destruct (invalidateFault env (invalidation_pattern (model p))) as [err|].
  - destruct Hinv as [-> ->]. simpl. split; [done|]. by rewrite <- !app_assoc.
  - destruct Hinv as [Hr ->]. simpl. split; [|split].
    + intros Hnone. destruct r as [[]|e]; [done|].
      destruct Hr as (pat & Hpat & Hfault). rewrite Hnone in Hfault; done.
    + intros (pat & err & Hpat & Hfault). destruct r as [[]|e].
      * rewrite Hr in Hfault; done.
      * destruct Hr as (pat' & Hpat' & Hfault'). eauto.
    + rewrite <- !app_assoc. done.
Qed.

(** *** What a mutation removes from the store and what it leaves *)

Lemma invalidateAll_keeps env pattern e :
  entry_matches pattern e = false →
  respects (entry_kept e) (invalidateAll env pattern).
Proof.
  intros Hno w He. unfold invalidateAll, bind, emit, modify, throw. simpl.
  destruct (invalidateFault env pattern); simpl; [done|].
  apply list_elem_of_In, filter_In. split; [by apply list_elem_of_In | by rewrite Hno].
Qed.

Lemma invalidate_related_keeps env r e :
  (∀ m, m ∈ default [] (ModelConfig.invalidateRelated r) →
        entry_matches (invalidation_pattern m) e = false) →
  respects (entry_kept e) (invalidate_related env r).
Proof.
  intros Hno. unfold invalidate_related.
  destruct (ModelConfig.invalidateRelated r) as [related|]; simpl in Hno;
    [|apply respects_ret, _].
  apply respects_promise_all; [apply _|]. apply Forall_forall. intros c Hc.
  apply list_elem_of_In, in_map_iff in Hc as (m & <- & Hin).
  apply invalidateAll_keeps, Hno. by apply list_elem_of_In.
Qed.

Lemma invalidate_keeps cfg env p e :
  entry_matches (invalidation_pattern (model p)) e = false →
  (∀ m, m ∈ related_models cfg p → entry_matches (invalidation_pattern m) e = false) →
  respects (entry_kept e) (invalidate cfg env p).
Proof.
  intros Hprimary Hrelated. unfold invalidate.
  apply respects_bind; [apply _ | by apply invalidateAll_keeps | intros _].
  apply respects_bind; [apply _ | apply respects_emit; by intros ev w He | intros _].
  apply respects_promise_all; [apply _|]. apply Forall_forall. intros c Hc.
  apply list_elem_of_In, in_map_iff in Hc as (r & <- & Hin).
  apply invalidate_related_keeps. intros m Hm. apply Hrelated.
  unfold related_models. apply list_elem_of_In, in_flat_map. exists r.
  split; [done | by apply list_elem_of_In].
Qed.

Lemma invalidate_removes cfg env p w e :
  invalidateFault env (invalidation_pattern (model p)) = None →
  entry_matches (invalidation_pattern (model p)) e = true →
  e ∉ storage (snd (invalidate cfg env p w)).
Proof.
  intros Hfault Hmatch He.
  assert (storage_shrinks
            (set_storage
               (List.filter (λ e, negb (entry_matches (invalidation_pattern (model p)) e)))
               (log (EvInvalidateAll (invalidation_pattern (model p))) w))
            (snd (invalidate cfg env p w))) as Hshrink.
  { unfold invalidate, invalidateAll, bind at 1 2, emit at 1, modify at 1 2.
    simpl. rewrite Hfault. simpl.
    apply (respects_bind storage_shrinks);
      [apply (respects_emit storage_shrinks); by intros; apply storage_shrinks_same |].
    intros _. apply (respects_promise_all storage_shrinks), Forall_forall.
    intros c Hc. apply list_elem_of_In, in_map_iff in Hc as (r & <- & _).
    apply (respects_invalidate_related storage_shrinks);
      first [apply storage_shrinks_filter | by intros; apply storage_shrinks_same]. }
  apply Hshrink in He. simpl in He.
  apply list_elem_of_In, filter_In in He as [_ He]. by rewrite Hmatch in He.
Qed.

Lemma return_pending_storage body pr w :
  storage (snd (return_pending body pr w)) = storage (snd (body w)).
Proof.
  unfold return_pending, settle. destruct (body w) as [r w1].
  by destruct (pr (db w1)) as [v d].
Qed.

(** Registration does not look at the executor of the call. *)
Lemma forEach_rule_with_query cfg q p rules c :
  forEach_rule cfg (with_query q p) rules c = forEach_rule cfg p rules c.
Proof.
  revert c. induction rules as [|r rules IH]; intros c; [done|]. simpl.
  change (define_for_rule cfg (with_query q p) c r) with (define_for_rule cfg p c r).
  destruct (define_for_rule cfg p c r) as [[[]|e] c']; [apply IH | done].
Qed.

Lemma register_run_with_query cfg q p c :
  register_run cfg (with_query q p) c = register_run cfg p c.
Proof.
  unfold register_run. rewrite forEach_rule_with_query. reflexivity.
Qed.

Lemma register_with_query cfg q p c :
  register cfg (with_query q p) c = register cfg p c.
Proof. unfold register. by rewrite register_run_with_query. Qed.

Lemma cacheable_with_query cfg q p c :
  cacheable cfg (with_query q p) c = cacheable cfg p c.
Proof. reflexivity. Qed.

(** What a mutation does to the store does not depend on how its query
    settles: the invalidation runs while the promise is pending. *)
Lemma mutation_storage_ignores_query cfg env p q w :
  includes defaultMutationMethods (operation p) = true →
  storage (snd (allOperations cfg env (with_query q p) w))
  = storage (snd (allOperations cfg env p w)).
Proof.
  intros Hm. destruct (fst (register_run cfg p (cache w))) as [[]|err] eqn:Hrun.
  - rewrite (allOperations_mutation cfg env p w Hm Hrun).
    rewrite <- (register_run_with_query cfg q) in Hrun.
    rewrite (allOperations_mutation cfg env (with_query q p) w Hm Hrun).
    rewrite !return_pending_storage. unfold set_cache.
    rewrite register_with_query. reflexivity.
  - rewrite (allOperations_throws cfg env p w err Hrun).
    rewrite <- (register_run_with_query cfg q) in Hrun.
    by rewrite (allOperations_throws cfg env (with_query q p) w err Hrun).
Qed.

(** C9 (amended).  A mutation whose registration throws rejects before the
    executor is called: it is not a successful write.  For every other
    mutation on a model, the first deletion uses the pattern built from the
    model name, [*<model>~*], never one built from the [cacheKey] of its rule.
    An entry survives the mutation when the storage matches none of its
    references against that pattern nor against the pattern of a related
    model; and when the deletion for the model does not fail, every entry with
    a reference that the storage matches against its pattern is gone, whatever
    the [cacheKey] it was stored under. *)
Theorem primary_invalidation_uses_model_name cfg env p w :
  includes defaultMutationMethods (operation p) = true →
  let primary := invalidation_pattern (model p) in
  match fst (register_run cfg p (cache w)) with
  | Rejected err => allOperations cfg env p w = (Rejected err, w)
  | Fulfilled _ =>
      primary = "*" +:+ model p +:+ "~*"
      ∧ (∃ evs, trace (snd (allOperations cfg env p w))
                = trace w ++ [EvQueryCalled; EvInvalidateAll primary] ++ evs)
      ∧ (∀ e, e ∈ storage w →
              entry_matches primary e = false →
              (∀ m, m ∈ related_models cfg p →
                    entry_matches (invalidation_pattern m) e = false) →
              e ∈ storage (snd (allOperations cfg env p w)))
      ∧ (∀ e, invalidateFault env primary = None →
              entry_matches primary e = true →
              e ∉ storage (snd (allOperations cfg env p w)))
  end.
Proof.
  intros Hm. simpl.
  destruct (fst (register_run cfg p (cache w))) as [[]|err] eqn:Hrun;
    [|by apply allOperations_throws].
  rewrite allOperations_mutation by done.
  set (w0 := log EvQueryCalled (set_cache (register cfg p) w)).
  split; [done|]. split; [|split].
  - unfold return_pending, settle.
    pose proof (invalidate_behaviour cfg env p w0) as Hinv.
    destruct (invalidate cfg env p w0) as [r w1].
    destruct (query p (args p) (db w1)) as [res d]. simpl in *.
    destruct (invalidateFault env (invalidation_pattern (model p))) as [err|];
      destruct Hinv as [_ ->]; rewrite <- !app_assoc; simpl; eauto.
  - intros e He Hprimary Hrelated. rewrite return_pending_storage.
    by apply (invalidate_keeps cfg env p e Hprimary Hrelated w0).
  - intros e Hfault Hmatch. rewrite return_pending_storage.
    by apply invalidate_removes.
Qed.

(** *** What the exclusions guarantee, and what they do not *)

(** Nothing is ever defined for a model in [excludeModels]. *)
Lemma register_excluded_model cfg p c :
  includes (cfg_excludeModels cfg) (model p) = true → register cfg p c = c.
Proof.
  intros Hex. unfold register. by rewrite register_run_excluded_model.
Qed.

Lemma excluded_model_never_defined cfg calls w m :
  includes (cfg_excludeModels cfg) m = true →
  cache w !! m = None → cache (run cfg calls w) !! m = None.
Proof.
  intros Hex. revert w. induction calls as [|[env p] calls IH]; intros w Hw; [done|].
  rewrite run_cons. apply IH. rewrite allOperations_cache.
  destruct (decide (m = model p)) as [->|Hne].
  - by rewrite register_excluded_model.
  - by rewrite register_other.
Qed.

(** A call on an excluded model, or with an excluded cache method, does not
    go through the cache: it stores nothing. *)
Lemma excluded_call_stores_nothing cfg env p w :
  includes (cfg_excludeModels cfg) (model p) = true
  ∨ includes (excludedCacheMethods cfg) (operation p) = true →
  ∀ e, e ∈ storage (snd (allOperations cfg env p w)) → e ∈ storage w.
Proof.
  intros Hex e He. apply allOperations_storage in He as [ He | (b & v & Hc & _) ]; [done|].
  apply cacheable_Some in Hc as (_ & Hmodel & Hmethod & _).
  destruct Hex; congruence.
Qed.

(** The exclusions of a rule are not asked again once the function of the
    model is defined: a read then goes through the cache whatever the rule
    says about its operation. *)
Lemma defined_function_is_used cfg p c b :
  c !! model p = Some b →
  includes (cfg_excludeModels cfg) (model p) = false →
  includes (excludedCacheMethods cfg) (operation p) = false →
  includes defaultMutationMethods (operation p) = false →
  cacheable cfg p (register cfg p c) = Some b.
Proof.
  intros Hb Hmodel Hmethod Hmutation. unfold cacheable.
  rewrite Hmodel, Hmethod, Hmutation. simpl. by apply register_preserves.
Qed.

(** ** Further properties of the hook *)

(** *** Calls that stay away from the cache *)

(** A call that is not a mutation, on a model in [excludeModels] or with an
    excluded cache method, is the call of the real executor and nothing else:
    the hook answers as the executor does, the source of truth is what the
    executor leaves, and neither the functions defined on the cache object
    nor the store change, whatever fails in the cache layer. *)
Theorem excluded_read_passes_through cfg env p w :
  includes (cfg_excludeModels cfg) (model p) = true
  ∨ includes (excludedCacheMethods cfg) (operation p) = true →
  includes defaultMutationMethods (operation p) = false →
  fst (allOperations cfg env p w) = fst (query p (args p) (db w))
  ∧ db (snd (allOperations cfg env p w)) = snd (query p (args p) (db w))
  ∧ storage (snd (allOperations cfg env p w)) = storage w
  ∧ cache (snd (allOperations cfg env p w)) = cache w
  ∧ trace (snd (allOperations cfg env p w))
    = trace w ++ [EvQueryCalled; EvQuerySettled (fst (query p (args p) (db w)))].
Proof.
  intros Hex Hm.
  assert (register_run cfg p (cache w) = (Fulfilled tt, cache w)) as Hrun.
  { destruct Hex as [H|H];
      [by apply register_run_excluded_model | by apply register_run_excluded_method]. }
  assert (register cfg p (cache w) = cache w) as Hreg
    by (unfold register; by rewrite Hrun).
  assert (cacheable cfg p (register cfg p (cache w)) = None) as Hc.
  { unfold cacheable. destruct Hex as [H|H]; rewrite H; simpl; [done|].
    by rewrite andb_false_r. }
  rewrite allOperations_directly by (by try rewrite Hrun).
  unfold query_directly, return_pending, settle, fetchFromPrisma, bind, emit, modify, ret.
  simpl. rewrite Hm. simpl.
  destruct (query p (args p) (db w)) as [r d]. simpl. rewrite Hreg.
  repeat split. by rewrite <- app_assoc.
Qed.

(** A call that is not a mutation never removes anything from the store. *)
Theorem read_keeps_entries cfg env p w e :
  includes defaultMutationMethods (operation p) = false →
  e ∈ storage w → e ∈ storage (snd (allOperations cfg env p w)).
Proof.
  intros Hm He.
  destruct (allOperations_cases cfg env p w)
    as [ (err & Hrun & ->) | [ (b & Hc & ->) | (Hrun & Hc & ->) ] ]; [done|..].
  - apply (respects_query_through_cache (entry_kept e));
      first [ by intros ev w0 H | by intros d w0 H | done | idtac ].
    intros en w0 H. simpl. apply elem_of_app. by left.
  - unfold query_directly, return_pending, settle, fetchFromPrisma, bind, emit, modify, ret.
    simpl. rewrite Hm. simpl. by destruct (query p (args p) (db w)).
Qed.

(** A call leaves the functions of all other models as they are. *)
Theorem call_defines_only_its_model cfg env p w name :
  name ≠ model p →
  cache (snd (allOperations cfg env p w)) !! name = cache w !! name.
Proof. intros Hne. rewrite allOperations_cache. by apply register_other. Qed.

(** *** Which rule a binding comes from *)

Lemma defining_rule_first cfg p before r after :
  cfg_models cfg = before ++ r :: after →
  (∀ r', r' ∈ before →
         ModelConfig.model r' ≠ model p
         ∨ opt_includes (ModelConfig.excludeMethods r') (operation p) = true) →
  ModelConfig.model r = model p →
  opt_includes (ModelConfig.excludeMethods r) (operation p) = false →
  defining_rule cfg p = Some r.
Proof.
  intros Hrules Hbefore Hmodel Hrule. unfold defining_rule. rewrite Hrules. clear Hrules.
  induction before as [|r' before IH]; simpl.
  - by rewrite Hmodel, String.eqb_refl, Hrule.
  - destruct (Hbefore r') as [Hne|Hex]; [by left | |].
    + destruct (String.eqb_spec (ModelConfig.model r') (model p)); [done|]. simpl.
      apply IH. intros r0 Hr0. apply Hbefore. by right.
    + rewrite Hex, andb_false_r. apply IH. intros r0 Hr0. apply Hbefore. by right.
Qed.

(** When several rules name the same model, the first of them that does not
    exclude the operation of the registering call is the one [cache.define]
    is called for, and the rules after it are not looked at: when the ttl it
    asks for (its [cacheTime], or the global one when it has none or zero) is
    not negative, it gives the binding its tag key and its ttl; when it is
    negative, [cache.define] throws and nothing is defined. *)
Theorem first_matching_rule_defines cfg p c before r after :
  cfg_models cfg = before ++ r :: after →
  (∀ r', r' ∈ before →
         ModelConfig.model r' ≠ model p
         ∨ opt_includes (ModelConfig.excludeMethods r') (operation p) = true) →
  ModelConfig.model r = model p →
  opt_includes (ModelConfig.excludeMethods r) (operation p) = false →
  c !! model p = None →
  includes (cfg_excludeModels cfg) (model p) = false →
  includes (excludedCacheMethods cfg) (operation p) = false →
  register_run cfg p c
  = (if (number_or (ModelConfig.cacheTime r) (cfg_cacheTime cfg) <? 0)%Z
     then (Rejected ttl_error, c)
     else (Fulfilled tt, <[model p := binding_of_rule cfg r]> c))
  ∧ ((0 ≤ number_or (ModelConfig.cacheTime r) (cfg_cacheTime cfg))%Z →
     register cfg p c !! model p = Some (binding_of_rule cfg r)).
Proof.
  intros Hrules Hbefore Hmodel Hrule Hnone Hexm Hexo.
  pose proof (defining_rule_first cfg p before r after Hrules Hbefore Hmodel Hrule) as Hdef.
  pose proof (register_run_absent cfg p c Hnone Hexm Hexo) as Hrun.
  rewrite Hdef in Hrun. unfold rule_ttl in Hrun. split; [exact Hrun|].
  intros Hpos. unfold register. rewrite Hrun.
  destruct (Z.ltb_spec (number_or (ModelConfig.cacheTime r) (cfg_cacheTime cfg)) 0); [lia|].
  simpl. by rewrite lookup_insert_eq.
Qed.

(** A model that no rule names still gets a cache function, on the first call
    that is not excluded: tagged with the model name and with the global
    ttl. *)
Theorem unconfigured_model_gets_default cfg p c :
  (∀ r, r ∈ cfg_models cfg → ModelConfig.model r ≠ model p) →
  c !! model p = None →
  includes (cfg_excludeModels cfg) (model p) = false →
  includes (excludedCacheMethods cfg) (operation p) = false →
  register cfg p c !! model p = Some (binding_of_model cfg (model p)).
Proof.
  intros Hno Hnone Hexm Hexo. rewrite register_created by done.
  unfold created_binding. rewrite Hexm, Hexo. simpl.
  destruct (defining_rule cfg p) as [r|] eqn:Hdef.
  - apply defining_rule_Some in Hdef as (Hr & Hm & _). by destruct (Hno r Hr).
  - by rewrite (proj2 (has_rule_false cfg (model p)) Hno).
Qed.

(** *** Where the entries of the store come from *)

(** What is known of an entry that a run of calls has stored. *)
Definition cached_by_read (cfg : CreatePrismaRedisCache) (e : Entry) : Prop :=
  includes (cfg_excludeModels cfg) (e_name e) = false
  ∧ ∃ op a, e_key e = serialize (e_name e) op a
            ∧ includes (excludedCacheMethods cfg) op = false
            ∧ includes defaultMutationMethods op = false.

Lemma run_cached_by_read cfg calls w :
  (∀ e, e ∈ storage w → cached_by_read cfg e) →
  ∀ e, e ∈ storage (run cfg calls w) → cached_by_read cfg e.
Proof.
  revert w. induction calls as [|[env p] calls IH]; intros w Hw; [done|].
  rewrite run_cons. apply IH. intros e He.
  apply allOperations_storage in He as [ He | (b & v & Hc & ->) ]; [by apply Hw|].
  apply cacheable_Some in Hc as (_ & Hmodel & Hmethod & Hmutation).
  split; [done|]. by exists (operation p), (args p).
Qed.

(** Whatever is called, every entry of the store is the result of a call that
    was not a mutation, whose operation was not an excluded cache method, on
    a model that is not in [excludeModels]. *)
Theorem stored_entry_provenance cfg calls d e :
  e ∈ storage (run cfg calls (init d)) →
  includes (cfg_excludeModels cfg) (e_name e) = false
  ∧ ∃ op a, e_key e = serialize (e_name e) op a
            ∧ includes (excludedCacheMethods cfg) op = false
            ∧ includes defaultMutationMethods op = false.
Proof.
  intros He. apply (run_cached_by_read cfg calls (init d)); [|done].
  intros e' He'. simpl in He'. by apply elem_of_nil in He'.
Qed.

(** *** What a mutation does to the store and to the source of truth *)

Lemma filter_matches_none_nil (l : list Entry) : List.filter (matches_none []) l = l.
Proof. induction l as [|e l IH]; simpl; [done | by rewrite IH]. Qed.

Lemma matches_none_app (ps1 ps2 : list string) (e : Entry) :
  matches_none (ps1 ++ ps2) e = matches_none ps1 e && matches_none ps2 e.
Proof. unfold matches_none. by rewrite existsb_app, negb_orb. Qed.

Lemma filter_matches_none_app (ps1 ps2 : list string) (l : list Entry) :
  List.filter (matches_none ps2) (List.filter (matches_none ps1) l)
  = List.filter (matches_none (ps1 ++ ps2)) l.
Proof.
  induction l as [|e l IH]; [done|].
  cbn [List.filter]. rewrite matches_none_app.
  destruct (matches_none ps1 e); cbn [List.filter andb]; [|done].
  destruct (matches_none ps2 e); by rewrite IH.
Qed.

Lemma filter_matches_none_single (pattern : string) (l : list Entry) :
  List.filter (λ e, negb (entry_matches pattern e)) l
  = List.filter (matches_none [pattern]) l.
Proof.
  apply filter_ext. intros e. unfold matches_none. simpl. by rewrite orb_false_r.
Qed.

Lemma promise_all_invalidateAll_storage env ms w :
  (∀ m, m ∈ ms → invalidateFault env (invalidation_pattern m) = None) →
  storage (snd (promise_all env (map (λ m, invalidateAll env (invalidation_pattern m)) ms) w))
  = List.filter (matches_none (map invalidation_pattern ms)) (storage w).
Proof.
  rewrite promise_all_world.
  revert w. induction ms as [|m ms IH]; intros w Hok; simpl.
  - by rewrite filter_matches_none_nil.
  - assert (storage (snd (invalidateAll env (invalidation_pattern m) w))
            = List.filter (matches_none [invalidation_pattern m]) (storage w)) as Hm.
    { unfold invalidateAll, bind, emit, modify, throw. simpl.
      rewrite (Hok m) by left. simpl. apply filter_matches_none_single. }
    destruct (invalidateAll env (invalidation_pattern m) w) as [r w1]. simpl in Hm.
    specialize (IH w1). destruct (all_settled _ w1) as [rs w2]. simpl in *.
    rewrite IH, Hm by (intros m' Hm'; apply Hok; by right).
    apply (filter_matches_none_app [invalidation_pattern m]).
Qed.

Lemma promise_all_invalidate_related_storage env rules w :
  (∀ m, m ∈ flat_map (λ r, default [] (ModelConfig.invalidateRelated r)) rules →
        invalidateFault env (invalidation_pattern m) = None) →
  storage (snd (promise_all env (map (invalidate_related env) rules) w))
  = List.filter
      (matches_none
         (map invalidation_pattern
            (flat_map (λ r, default [] (ModelConfig.invalidateRelated r)) rules)))
      (storage w).
Proof.
  rewrite promise_all_world.
  revert w. induction rules as [|r rules IH]; intros w Hok; simpl.
  - by rewrite filter_matches_none_nil.
  - assert (storage (snd (invalidate_related env r w))
            = List.filter
                (matches_none
                   (map invalidation_pattern (default [] (ModelConfig.invalidateRelated r))))
                (storage w)) as Hr.
    { unfold invalidate_related.
      destruct (ModelConfig.invalidateRelated r) as [related|] eqn:Hrel; simpl.
      - apply promise_all_invalidateAll_storage. intros m Hm. apply Hok.
        simpl. rewrite Hrel. apply elem_of_app. by left.
      - by rewrite filter_matches_none_nil. }
    destruct (invalidate_related env r w) as [res w1]. simpl in Hr.
    specialize (IH w1). destruct (all_settled _ w1) as [rs w2]. simpl in *.
    rewrite IH, Hr by (intros m Hm; apply Hok, elem_of_app; by right).
    by rewrite filter_matches_none_app, map_app.
Qed.

(** When its registration does not throw and no deletion fails, a mutation
    leaves in the store exactly the entries none of whose references the
    storage matches against the pattern of its model or the pattern of a
    related model, in their order; this holds however the query of the
    mutation settles. *)
Theorem mutation_clears_matching_entries cfg env p w :
  includes defaultMutationMethods (operation p) = true →
  fst (register_run cfg p (cache w)) = Fulfilled tt →
  (∀ pattern, pattern ∈ invalidation_patterns cfg p → invalidateFault env pattern = None) →
  storage (snd (allOperations cfg env p w))
  = List.filter (matches_none (invalidation_patterns cfg p)) (storage w).
Proof.
  intros Hm Hrun Hok. rewrite allOperations_mutation, return_pending_storage by done.
  unfold invalidate, invalidateAll, bind at 1 2 3, emit, modify. simpl.
  rewrite (Hok (invalidation_pattern (model p))) by left. simpl.
  match goal with |- context [promise_all env ?ms ?w0] =>
    pose proof (promise_all_invalidate_related_storage env
                  (List.filter (λ r, String.eqb (ModelConfig.model r) (model p))
                     (cfg_models cfg)) w0) as Hrel
  end.
  simpl in Hrel. rewrite Hrel.
  - rewrite filter_matches_none_single.
    apply (filter_matches_none_app [invalidation_pattern (model p)]).
  - intros m Hm'. apply Hok. right. apply list_elem_of_fmap. by exists m.
Qed.

Lemma mutation_calls_query_once cfg env p w :
  includes defaultMutationMethods (operation p) = true →
  fst (register_run cfg p (cache w)) = Fulfilled tt →
  ∃ evs, trace (snd (allOperations cfg env p w)) = trace w ++ EvQueryCalled :: evs
         ∧ EvQueryCalled ∉ evs.
Proof.
  intros Hm Hrun. rewrite allOperations_mutation by done.
  unfold return_pending, settle.
  set (w0 := log EvQueryCalled (set_cache (register cfg p) w)).
  pose proof (invalidate_behaviour cfg env p w0) as Hinv.
  destruct (invalidate cfg env p w0) as [r w1].
  destruct (query p (args p) (db w1)) as [res d]. simpl in *.
  destruct (invalidateFault env (invalidation_pattern (model p))) as [err|];
    destruct Hinv as [_ ->]; rewrite <- !app_assoc; simpl;
    (eexists; split; [reflexivity|]).
  - rewrite !elem_of_cons. intros [?|[?|?%elem_of_nil]]; done.
  - rewrite !elem_of_cons, elem_of_app, list_elem_of_singleton.
    intros [?|[?|[Hin|?]]]; try done.
    apply list_elem_of_In, in_map_iff in Hin as (x & Hx & _). discriminate.
Qed.

(** A mutation whose registration does not throw runs its query exactly
    once against the source of truth, whatever fails in the store: a failed
    deletion rejects the call but the write has happened; and it never adds
    an entry to the store.  A mutation whose registration throws rejects with
    that error and changes nothing: its query is never called. *)
Theorem mutation_runs_query_once cfg env p w :
  includes defaultMutationMethods (operation p) = true →
  match fst (register_run cfg p (cache w)) with
  | Fulfilled _ =>
      db (snd (allOperations cfg env p w)) = snd (query p (args p) (db w))
      ∧ (∃ evs, trace (snd (allOperations cfg env p w)) = trace w ++ EvQueryCalled :: evs
                ∧ EvQueryCalled ∉ evs)
      ∧ ∀ e, e ∈ storage (snd (allOperations cfg env p w)) → e ∈ storage w
  | Rejected err => allOperations cfg env p w = (Rejected err, w)
  end.
Proof.
  intros Hm. destruct (fst (register_run cfg p (cache w))) as [[]|err] eqn:Hrun;
    [|by apply allOperations_throws].
  split; [|split].
  - rewrite allOperations_mutation by done. unfold return_pending, settle.
    pose proof (invalidate_db cfg env p
                  (log EvQueryCalled (set_cache (register cfg p) w))) as Hdb.
    destruct (invalidate cfg env p _) as [r w1]. simpl in Hdb. rewrite Hdb. simpl.
    by destruct (query p (args p) (db w)).
  - by apply mutation_calls_query_once.
  - intros e He. apply allOperations_storage in He as [ He | (b & v & Hc & _) ]; [done|].
    rewrite cacheable_mutation in Hc by done. discriminate.
Qed.

(** *** Reads through the cache *)

(** Registration does nothing once the function of the model is defined. *)
Lemma register_defined cfg p c b :
  c !! model p = Some b → register cfg p c = c.
Proof.
  intros Hb. unfold register. by rewrite (register_run_defined cfg p c b Hb).
Qed.

Lemma lookup_entry_new name b key v s :
  lookup_entry name key s = None →
  lookup_entry name key (s ++ [new_entry name b key v]) = Some (new_entry name b key v).
Proof.
  unfold lookup_entry. induction s as [|e s IH]; simpl.
  - intros _. by rewrite !String.eqb_refl.
  - destruct (String.eqb (e_name e) name && String.eqb (e_key e) key); [done | exact IH].
Qed.

(** A read that misses: the executor runs once and, when it fulfils, its value
    is returned and stored under the references of the binding. *)
Lemma read_miss_stores cfg env p w b v d :
  cacheable cfg p (register cfg p (cache w)) = Some b →
  cacheFault env = NoFault →
  lookup_entry (model p) (callKey p) (storage w) = None →
  query p (args p) (db w) = (Fulfilled v, d) →
  (1 ≤ ttl b)%Z →
  allOperations cfg env p w
  = (Fulfilled v,
     log (EvCacheSet (model p) (callKey p) (references b (callKey p)))
       (set_storage (λ s, s ++ [new_entry (model p) b (callKey p) v])
          (log (EvQuerySettled (Fulfilled v))
             (set_db d
                (log EvQueryCalled
                   (log (EvCacheMiss (model p) (callKey p))
                      (set_cache (register cfg p) w))))))).
Proof.
  intros Hc Hfault Hmiss Hq Httl. rewrite (allOperations_through_cache _ _ _ _ _ Hc).
  unfold query_through_cache, try_catch, cacheFunction, await_fetchFromPrisma,
    fetchFromPrisma, settle, bind, gets, emit, modify, ret, throw.
  rewrite Hfault. simpl. rewrite Hmiss. simpl. rewrite Hq. simpl.
  assert ((ttl b <? 1)%Z = false) as -> by (apply Z.ltb_ge; lia).
  done.
Qed.

(** Read, then read again: after a read has missed and stored the value of
    the executor, the same read (same model, operation and arguments) is
    answered with that value from the store; the executor is not called, and
    nothing changes but the trace. *)
Theorem repeated_read_hits cfg env env' p q' w b v d :
  cacheable cfg p (register cfg p (cache w)) = Some b →
  cacheFault env = NoFault →
  lookup_entry (model p) (callKey p) (storage w) = None →
  query p (args p) (db w) = (Fulfilled v, d) →
  (1 ≤ ttl b)%Z →
  (∀ e, cacheFault env' ≠ FaultOnGet e) →
  fst (allOperations cfg env p w) = Fulfilled v
  ∧ allOperations cfg env' (with_query q' p) (snd (allOperations cfg env p w))
    = (Fulfilled v,
       log (EvCacheHit (model p) (callKey p)) (snd (allOperations cfg env p w))).
Proof.
  intros Hc Hfault Hmiss Hq Httl Hfault'.
  rewrite (read_miss_stores cfg env p w b v d) by done. split; [done|].
  apply cacheable_Some in Hc as Hparts. destruct Hparts as [Hb _]. cbn [snd].
  match goal with |- allOperations _ _ _ ?w1 = _ => set (w' := w1) end.
  assert (cache w' = register cfg p (cache w)) as Hcache by reflexivity.
  assert (storage w' = storage w ++ [new_entry (model p) b (callKey p) v]) as Hstorage
    by reflexivity.
  assert (register cfg (with_query q' p) (cache w') = cache w') as Hreg.
  { rewrite register_with_query, Hcache. exact (register_defined cfg p _ b Hb). }
  assert (cacheable cfg (with_query q' p) (register cfg (with_query q' p) (cache w'))
          = Some b) as Hc'.
  { rewrite Hreg, cacheable_with_query, Hcache. exact Hc. }
  rewrite (allOperations_through_cache _ _ _ _ _ Hc'), (set_cache_same _ w' Hreg).
  clearbody w'.
  unfold query_through_cache, try_catch, cacheFunction, bind, gets, emit, modify, ret,
    throw.
  change (callKey (with_query q' p)) with (callKey p).
  change (model (with_query q' p)) with (model p).
  assert (lookup_entry (model p) (callKey p) (storage w')
          = Some (new_entry (model p) b (callKey p) v)) as Hhit
    by (rewrite Hstorage; by apply lookup_entry_new).
  destruct (cacheFault env') as [|e|e] eqn:Henv'; [|by destruct (Hfault' e)|];
    simpl; rewrite Hhit; done.
Qed.

(** A read that misses and whose query rejects is run a second time: the
    error comes out of the cache function, the hook catches it and calls the
    executor directly.  The caller gets the outcome of the second run, the
    source of truth has seen both, and nothing is stored. *)
Theorem failing_read_runs_query_twice cfg env p w b err d1 :
  cacheable cfg p (register cfg p (cache w)) = Some b →
  (∀ e, cacheFault env ≠ FaultOnGet e) →
  lookup_entry (model p) (callKey p) (storage w) = None →
  query p (args p) (db w) = (Rejected err, d1) →
  fst (allOperations cfg env p w) = fst (query p (args p) d1)
  ∧ db (snd (allOperations cfg env p w)) = snd (query p (args p) d1)
  ∧ storage (snd (allOperations cfg env p w)) = storage w.
Proof.
  intros Hc Hfault Hmiss Hq. rewrite (allOperations_through_cache _ _ _ _ _ Hc).
  unfold query_through_cache, try_catch, cacheFunction, await_fetchFromPrisma,
    fetchFromPrisma, settle, bind, gets, emit, modify, ret, throw.
  destruct (cacheFault env) as [|e|e] eqn:Henv; [|by destruct (Hfault e)|];
    simpl; rewrite Hmiss; simpl; rewrite Hq; simpl;
    by destruct (query p (args p) d1) as [[v|e'] d2].
Qed.

(** *** A configuration without a positive ttl *)

Lemma query_through_cache_low_ttl env b p w :
  (ttl b < 1)%Z → storage (snd (query_through_cache env b p w)) = storage w.
Proof.
  intros Httl. apply Z.ltb_lt in Httl.
  unfold query_through_cache, try_catch, cacheFunction, await_fetchFromPrisma,
    fetchFromPrisma, settle, bind, gets, emit, modify, ret, throw.
  rewrite Httl.
  destruct (cacheFault env) as [|e|e]; simpl;
    try destruct (lookup_entry (model p) (callKey p) (storage w)); simpl;
    try destruct (query p (args p) (db w)) as [[v|e'] d1]; simpl;
    try destruct (query p (args p) d1) as [[v2|e2] d2]; simpl; done.
Qed.

Lemma binding_from_cfg_low_ttl cfg name b :
  (cfg_cacheTime cfg < 1)%Z →
  (∀ r, r ∈ cfg_models cfg →
        (number_or (ModelConfig.cacheTime r) (cfg_cacheTime cfg) < 1)%Z) →
  binding_from_cfg cfg name b → (ttl b < 1)%Z.
Proof.
  intros Hglobal Hrules [ (r & Hr & _ & ->) | [_ ->] ]; simpl; [by apply Hrules | done].
Qed.

Lemma run_low_ttl cfg calls w :
  (cfg_cacheTime cfg < 1)%Z →
  (∀ r, r ∈ cfg_models cfg →
        (number_or (ModelConfig.cacheTime r) (cfg_cacheTime cfg) < 1)%Z) →
  (∀ name b, cache w !! name = Some b → binding_from_cfg cfg name b) →
  storage w = [] → storage (run cfg calls w) = [].
Proof.
  intros Hglobal Hrules. revert w.
  induction calls as [|[env p] calls IH]; intros w Hcache Hempty; [done|].
  rewrite run_cons. apply IH.
  - rewrite allOperations_cache. by apply register_from_cfg.
  - cbn [fst snd].
    destruct (allOperations_cases cfg env p w)
      as [ (err & Hrun & ->) | [ (b & Hc & ->) | (Hrun & Hc & ->) ] ]; [done|..].
    + rewrite query_through_cache_low_ttl; [done|].
      apply cacheable_Some in Hc as [Hb _].
      eapply binding_from_cfg_low_ttl; [done..|].
      by eapply register_from_cfg.
    + destruct (storage (snd (query_directly cfg env p (set_cache (register cfg p) w))))
        as [|e l] eqn:Hs; [done|].
      assert (e ∈ storage (set_cache (register cfg p) w)) as He
        by (apply (query_directly_storage cfg env p); rewrite Hs; left).
      simpl in He. rewrite Hempty in He. by apply elem_of_nil in He.
Qed.

(** When neither the global [cacheTime] nor the [cacheTime] of a rule gives a
    ttl of at least one second (the default: none is given), nothing is ever
    stored, whatever is called. *)
Theorem no_positive_ttl_stores_nothing cfg calls d :
  (cfg_cacheTime cfg < 1)%Z →
  (∀ r, r ∈ cfg_models cfg →
        (number_or (ModelConfig.cacheTime r) (cfg_cacheTime cfg) < 1)%Z) →
  storage (run cfg calls (init d)) = [].
Proof.
  intros Hglobal Hrules. apply run_low_ttl; [done..| |done].
  intros name b. apply init_from_cfg.
Qed.

End Extension.

Arguments model {DB} _.
Arguments operation {DB} _.
Arguments args {DB} _.
Arguments query {DB} _ _ _.
Arguments cache {DB} _.
Arguments storage {DB} _.
Arguments db {DB} _.
Arguments trace {DB} _.
Arguments init {DB} d.
Arguments set_cache {DB} f w.
Arguments register {DB} defaultCacheMethods cfg p c.
Arguments cacheable {DB} defaultCacheMethods defaultMutationMethods cfg p c.
Arguments cacheFunction {DB} serialize env name b p _.
Arguments allOperations {DB} serialize defaultCacheMethods defaultMutationMethods
  referenceMatches cfg env p _.
Arguments run {DB} serialize defaultCacheMethods defaultMutationMethods
  referenceMatches cfg calls w.
Arguments related_models {DB} cfg p.
Arguments register_run {DB} defaultCacheMethods cfg p c.
Arguments created_binding {DB} defaultCacheMethods cfg p.

(** ** A concrete extension

    The tables of [./cacheMethods], a call key and a source of truth, to run
    the hook on the scenarios of the example program. *)

(** Modelled from the spec: [defaultMutationMethods] of [./cacheMethods],
    which is missing from the sources; the specification describes it as the
    closed set "create, update, delete, and their bulk/upsert variants". *)
Definition defaultMutationMethods : list string :=
  ["create"; "createMany"; "update"; "updateMany"; "upsert"; "delete"; "deleteMany"].

(** Modelled from the spec: [defaultCacheMethods] of [./cacheMethods], which
    is missing from the sources; the read operations the specification names
    are [findMany] and [count]. *)
Definition defaultCacheMethods : list string := ["findMany"; "count"].

(** A stand-in for the call key of async-cache-dedupe. *)
Definition serialize (m o a : string) : string :=
  m +:+ "." +:+ o +:+ "(" +:+ a +:+ ")".

(** The source of truth: the arguments of the queries it has answered. *)
Definition Rows : Type := list string.

Definition query_ok (v : string) (a : string) (d : Rows) : Settled string * Rows :=
  (Fulfilled v, d ++ [a]).
Definition query_fails (e : string) (a : string) (d : Rows) : Settled string * Rows :=
  (Rejected e, d).

Definition call (m o : string) (q : string → Rows → Settled string * Rows)
    : MiddlewareParams Rows :=
  {| model := m; operation := o; args := "{}"; query := q |}.

Definition hook (cfg : CreatePrismaRedisCache) (env : Faults) (p : MiddlewareParams Rows)
    : M Rows string :=
  allOperations serialize defaultCacheMethods defaultMutationMethods wildcardMatch cfg env p.

(** Nothing defined, nothing stored, nothing asked yet. *)
Definition start : World Rows := init [].

Definition hooks (cfg : CreatePrismaRedisCache) (calls : list (Faults * MiddlewareParams Rows))
    : World Rows :=
  run serialize defaultCacheMethods defaultMutationMethods wildcardMatch cfg calls start.

(** [{ models: [{ model: "User", cacheTime: 300 }], cacheTime: 60 }], as in the
    example program. *)
Definition cfg_user : CreatePrismaRedisCache :=
  {| models := Some [ModelConfig.mk "User" (Some 300%Z) None None None];
     cacheTime := Some 60%Z; excludeModels := None; excludeMethods := None |}.

(** The same with [invalidateRelated: ["Post"]] on the rule. *)
Definition cfg_user_related : CreatePrismaRedisCache :=
  {| models := Some [ModelConfig.mk "User" (Some 300%Z) None None (Some ["Post"])];
     cacheTime := Some 60%Z; excludeModels := None; excludeMethods := None |}.

(** The same with [excludeMethods: ["count"]] on the rule. *)
Definition cfg_user_no_count : CreatePrismaRedisCache :=
  {| models := Some [ModelConfig.mk "User" (Some 300%Z) None (Some ["count"]) None];
     cacheTime := Some 60%Z; excludeModels := None; excludeMethods := None |}.

(** A storage supplied by the user whose wildcard deletion fails for one
    pattern, and lets the error out. *)
Definition failing_invalidation (pattern err : string) : Faults :=
  {| cacheFault := NoFault;
     invalidateFault := λ p, if String.eqb p pattern then Some err else None;
     rejectsFirst := λ _, 0 |}.

Definition failing_cache (err : string) : Faults :=
  {| cacheFault := FaultOnGet err; invalidateFault := λ _, None; rejectsFirst := λ _, 0 |}.

(** [{ models: [{ model: "Post", cacheKey: "Article" }], cacheTime: 60 }], as in
    the example program. *)
Definition cfg_article : CreatePrismaRedisCache :=
  {| models := Some [ModelConfig.mk "Post" None (Some "Article") None None];
     cacheTime := Some 60%Z; excludeModels := None; excludeMethods := None |}.

(** A rule whose [cacheKey] is the empty string. *)
Definition cfg_empty_cacheKey : CreatePrismaRedisCache :=
  {| models := Some [ModelConfig.mk "Post" None (Some EmptyString) None None];
     cacheTime := Some 60%Z; excludeModels := None; excludeMethods := None |}.

(** A rule whose [cacheTime] is zero, under a global [cacheTime] of 60. *)
Definition cfg_zero_cacheTime : CreatePrismaRedisCache :=
  {| models := Some [ModelConfig.mk "User" (Some 0%Z) None None None];
     cacheTime := Some 60%Z; excludeModels := None; excludeMethods := None |}.

(** A rule whose [cacheKey] ends with the name of its model. *)
Definition cfg_admin_user : CreatePrismaRedisCache :=
  {| models := Some [ModelConfig.mk "User" (Some 300%Z) (Some "AdminUser") None None];
     cacheTime := Some 60%Z; excludeModels := None; excludeMethods := None |}.

Definition findMany (m : string) : MiddlewareParams Rows := call m "findMany" (query_ok "rows").
Definition count (m : string) : MiddlewareParams Rows := call m "count" (query_ok "2").
Definition update (m : string) : MiddlewareParams Rows := call m "update" (query_ok "updated").

(** ** The hook on concrete calls *)

(** The scenario of the example program: the first [findMany] misses and
    stores its rows, the second one is answered from the store without a call
    of the real executor, an [update] deletes the entry, and the next
    [findMany] misses again. *)
Example read_through_scenario :
  trace (hooks cfg_user
           [(no_faults, findMany "User"); (no_faults, findMany "User");
            (no_faults, update "User"); (no_faults, findMany "User")])
  = [EvCacheMiss "User" "User.findMany({})"; EvQueryCalled;
     EvQuerySettled (Fulfilled "rows");
     EvCacheSet "User" "User.findMany({})" ["User~User.findMany({})"];
     EvCacheHit "User" "User.findMany({})";
     EvQueryCalled; EvInvalidateAll "*User~*";
     EvConsoleLog "Invalidated cache for User"; EvQuerySettled (Fulfilled "updated");
     EvCacheMiss "User" "User.findMany({})"; EvQueryCalled;
     EvQuerySettled (Fulfilled "rows");
     EvCacheSet "User" "User.findMany({})" ["User~User.findMany({})"]].
Proof. vm_compute. reflexivity. Qed.

(** C1, at a concrete call: the store is unreachable on the first read of
    [User]; the caller gets the rows of the real executor. *)
Lemma cache_failure_falls_back_witness :
  let env := failing_cache "ECONNREFUSED" in
  let registered := set_cache (register defaultCacheMethods cfg_user (findMany "User")) start in
  cacheable defaultCacheMethods defaultMutationMethods cfg_user (findMany "User")
    (register defaultCacheMethods cfg_user (findMany "User") (cache start))
  = Some {| tagKey := "User"; ttl := 300 |}
  ∧ cacheFunction serialize env "User" {| tagKey := "User"; ttl := 300 |}
      (findMany "User") registered
    = (Rejected "ECONNREFUSED", registered)
  ∧ fst (hook cfg_user env (findMany "User") start) = Fulfilled "rows".
Proof.
  cbv zeta.
  assert (cacheable defaultCacheMethods defaultMutationMethods cfg_user (findMany "User")
            (register defaultCacheMethods cfg_user (findMany "User") (cache start))
          = Some {| tagKey := "User"; ttl := 300 |}) as Hcacheable
    by (vm_compute; reflexivity).
  assert (cacheFunction serialize (failing_cache "ECONNREFUSED") "User"
            {| tagKey := "User"; ttl := 300 |} (findMany "User")
            (set_cache (register defaultCacheMethods cfg_user (findMany "User")) start)
          = (Rejected "ECONNREFUSED",
             set_cache (register defaultCacheMethods cfg_user (findMany "User")) start))
    as Hthrows by reflexivity.
  split; [exact Hcacheable|]. split; [exact Hthrows|].
  exact (proj1 (cache_failure_falls_back Rows serialize defaultCacheMethods
                  defaultMutationMethods wildcardMatch cfg_user (failing_cache "ECONNREFUSED")
                  (findMany "User") start _ _ _ Hcacheable Hthrows)).
Defined.

(** C2, at a failing write.  A read of [User] has stored an entry; an [update]
    of [User] whose query rejects with [P2002] rejects with that error, and
    the entry is gone all the same: [cache.invalidateAll] was called while the
    promise of the query was pending. *)
Lemma failed_write_still_invalidates :
  let before := hooks cfg_user [(no_faults, findMany "User")] in
  let failed :=
    hook cfg_user no_faults (call "User" "update" (query_fails "P2002")) before in
  map e_references (storage before) = [["User~User.findMany({})"]]
  ∧ fst failed = Rejected "P2002"
  ∧ storage (snd failed) = []
  ∧ drop (length (trace before)) (trace (snd failed))
    = [EvQueryCalled; EvInvalidateAll "*User~*";
       EvConsoleLog "Invalidated cache for User"; EvQuerySettled (Rejected "P2002")].
Proof. vm_compute. repeat split. Qed.

(** C3, at a successful write.  The hook calls the query, then
    [cache.invalidateAll] for the model and for its related model, and only
    then does the promise of the query settle. *)
Lemma invalidation_precedes_settlement :
  trace (snd (hook cfg_user_related no_faults (update "User") start))
  = [EvQueryCalled; EvInvalidateAll "*User~*";
     EvConsoleLog "Invalidated cache for User"; EvInvalidateAll "*Post~*";
     EvQuerySettled (Fulfilled "updated")].
Proof. vm_compute. reflexivity. Qed.

(** C4 as stated fails, with a storage that lets the error of a wildcard
    deletion out: the deletion for [User] fails after a successful [update];
    the call rejects with the error of the store, nothing is written to the
    console, and no deletion is attempted for the related model [Post]. *)
Lemma invalidation_failure_counterexample :
  let env := failing_invalidation "*User~*" "READONLY" in
  let r := hook cfg_user_related env (update "User") start in
  fst (query (update "User") (args (update "User")) (db start)) = Fulfilled "updated"
  ∧ related_models cfg_user_related (update "User") = ["Post"]
  ∧ fst r = Rejected "READONLY"
  ∧ trace (snd r)
    = [EvQueryCalled; EvInvalidateAll "*User~*"; EvQuerySettled (Fulfilled "updated")].
Proof. vm_compute. repeat split. Qed.

(** C4 (amended), at a concrete call: the deletion for the related model
    [Post] fails; the deletion was attempted after the one for [User], and the
    call rejects. *)
Lemma invalidation_failure_surfaces_witness :
  let env := failing_invalidation "*Post~*" "READONLY" in
  let r := hook cfg_user_related env (update "User") start in
  includes defaultMutationMethods (operation (update "User")) = true
  ∧ fst (register_run defaultCacheMethods cfg_user_related (update "User") (cache start))
    = Fulfilled tt
  ∧ map invalidation_pattern (related_models cfg_user_related (update "User")) = ["*Post~*"]
  ∧ fst r = Rejected "READONLY"
  ∧ trace (snd r)
    = [EvQueryCalled; EvInvalidateAll "*User~*";
       EvConsoleLog "Invalidated cache for User"; EvInvalidateAll "*Post~*";
       EvQuerySettled (Fulfilled "updated")].
Proof.
  cbv zeta.
  assert (fst (register_run defaultCacheMethods cfg_user_related (update "User") (cache start))
          = Fulfilled tt) as Hrun by (vm_compute; reflexivity).
  assert (map invalidation_pattern (related_models cfg_user_related (update "User"))
          = ["*Post~*"]) as Hrelated by reflexivity.
  destruct (invalidation_failure_surfaces Rows serialize defaultCacheMethods
              defaultMutationMethods wildcardMatch cfg_user_related
              (failing_invalidation "*Post~*" "READONLY") (update "User") start
              eq_refl Hrun) as (_ & Hrejects & Htrace).
  split; [reflexivity|]. split; [exact Hrun|]. split; [exact Hrelated|].
  split; [|exact Htrace].
  destruct Hrejects as (pat & err & Hpat & Hfault & Hr).
  { exists "*Post~*", "READONLY". split; [|reflexivity].
    rewrite Hrelated. by apply list_elem_of_singleton. }
  rewrite Hrelated in Hpat. apply list_elem_of_singleton in Hpat as ->.
  injection Hfault as <-. exact Hr.
Defined.

(** C5, at a rule-level exclusion.  The rule of [User] excludes [count].  Once
    a [findMany] has defined the cache function of [User], a [count] goes
    through it and an entry is stored for it; asked first, the same [count]
    stores nothing. *)
Lemma rule_exclusion_bypassed :
  let after_findMany :=
    hooks cfg_user_no_count [(no_faults, findMany "User"); (no_faults, count "User")] in
  let count_first := hooks cfg_user_no_count [(no_faults, count "User")] in
  opt_includes (Some ["count"]) (operation (count "User")) = true
  ∧ map (λ e, (e_key e, e_references e)) (storage after_findMany)
    = [("User.findMany({})", ["User~User.findMany({})"]);
       ("User.count({})", ["User~User.count({})"])]
  ∧ storage count_first = [].
Proof. vm_compute. repeat split. Qed.

(** C6 as stated fails: the cache function of [User] is defined by a
    [create], a mutation, before any read of [User]; and a first read that the
    rule of the model excludes defines nothing. *)
Lemma binding_created_by_mutation :
  let create := call "User" "create" (query_ok "row") in
  includes defaultMutationMethods (operation create) = true
  ∧ cache start !! "User" = None
  ∧ cache (snd (hook cfg_user no_faults create start)) !! "User"
    = Some {| tagKey := "User"; ttl := 300 |}
  ∧ includes defaultMutationMethods (operation (count "User")) = false
  ∧ cache (snd (hook cfg_user_no_count no_faults (count "User") start)) !! "User" = None.
Proof. vm_compute. repeat split. Qed.

(** C6 (amended), at concrete calls: a [count] that the rule of [User]
    excludes defines nothing, the [create] after it defines the function of
    [User], and the reads and the mutation that follow find it unchanged. *)
Lemma binding_registered_once_witness :
  let create := call "User" "create" (query_ok "row") in
  let b := {| tagKey := "User"; ttl := 300 |} in
  let defined := snd (hook cfg_user_no_count no_faults create start) in
  (cache start !! model create = None ∧ cache defined !! model create = Some b)
  ∧ cache (run serialize defaultCacheMethods defaultMutationMethods wildcardMatch
             cfg_user_no_count
             [(no_faults, findMany "User"); (no_faults, update "User");
              (no_faults, count "User")] defined) !! "User"
    = Some b
  ∧ created_binding defaultCacheMethods cfg_user_no_count (count "User") = None
  ∧ cache (hooks cfg_user_no_count
             ([(no_faults, count "User")] ++ (no_faults, create)
              :: [(no_faults, count "User")])) !! model create
    = Some b.
Proof.
  cbv zeta.
  destruct (binding_registered_once Rows serialize defaultCacheMethods
              defaultMutationMethods wildcardMatch cfg_user_no_count no_faults
              (call "User" "create" (query_ok "row")) start)
    as (_ & Hcreates & Hfirst).
  assert (cache start !! model (call "User" "create" (query_ok "row")) = None) as Hnone
    by (vm_compute; reflexivity).
  assert (cache (snd (hook cfg_user_no_count no_faults
                        (call "User" "create" (query_ok "row")) start))
            !! model (call "User" "create" (query_ok "row"))
          = Some {| tagKey := "User"; ttl := 300 |}) as Hdefined
    by exact (Hcreates Hnone).
  assert (created_binding defaultCacheMethods cfg_user_no_count (count "User") = None)
    as Hcount by reflexivity.
  split; [split; [exact Hnone | exact Hdefined]|].
  split; [|split; [exact Hcount|]].
  - exact (proj1 (binding_registered_once Rows serialize defaultCacheMethods
                    defaultMutationMethods wildcardMatch cfg_user_no_count no_faults
                    (findMany "User")
                    (snd (hook cfg_user_no_count no_faults
                            (call "User" "create" (query_ok "row")) start)))
             "User" _ _ Hdefined).
  - apply (Hfirst [(no_faults, count "User")] [(no_faults, count "User")]
             {| tagKey := "User"; ttl := 300 |} Hnone); [|reflexivity].
    intros env' p' Hin _. apply list_elem_of_singleton in Hin.
    injection Hin as _ ->. exact Hcount.
Defined.

(** C7 as stated fails: the rule of [Post] has a [cacheKey], the empty string;
    the entry of a read of [Post] is stored under the model name, not under
    that [cacheKey]. *)
Lemma empty_cacheKey_counterexample :
  let stored := storage (snd (hook cfg_empty_cacheKey no_faults (findMany "Post") start)) in
  ModelConfig.cacheKey <$> cfg_models cfg_empty_cacheKey = [Some EmptyString]
  ∧ map e_references stored = [["Post~Post.findMany({})"]]
  ∧ map e_references stored ≠ [[EmptyString +:+ "~" +:+ serialize "Post" "findMany" "{}"]].
Proof. vm_compute. repeat split. discriminate. Qed.

(** C7 (amended), at a concrete call: the first read of [Post] under the rule
    with [cacheKey: "Article"] stores its entry under [Article~<callKey>]. *)
Lemma stored_tag_shape_witness :
  let e := {| e_name := "Post"; e_key := "Post.findMany({})";
              e_references := ["Article~Post.findMany({})"];
              e_ttl := 60; e_value := "rows" |} in
  e ∈ storage (snd (hook cfg_article no_faults (findMany "Post") (hooks cfg_article [])))
  ∧ (e ∈ storage (hooks cfg_article [])
     ∨ ∃ tk,
         e_references e = [tk +:+ "~" +:+ serialize "Post" "findMany" "{}"]
         ∧ ((∃ r, r ∈ cfg_models cfg_article ∧ ModelConfig.model r = "Post"
                  ∧ tk = match ModelConfig.cacheKey r with
                         | Some EmptyString | None => "Post"
                         | Some k => k
                         end)
            ∨ ((∀ r, r ∈ cfg_models cfg_article → ModelConfig.model r ≠ "Post")
               ∧ tk = "Post"))).
Proof.
  cbv zeta.
  assert ({| e_name := "Post"; e_key := "Post.findMany({})";
             e_references := ["Article~Post.findMany({})"];
             e_ttl := 60; e_value := "rows" |}
          ∈ storage (snd (hook cfg_article no_faults (findMany "Post") (hooks cfg_article []))))
    as Hstored by (apply list_elem_of_singleton; reflexivity).
  split; [exact Hstored|].
  exact (stored_tag_shape Rows serialize defaultCacheMethods defaultMutationMethods
           wildcardMatch cfg_article [] [] no_faults (findMany "Post") _ Hstored).
Defined.

(** C8 as stated fails: the rule of [User] provides a [cacheTime], zero; the
    binding gets the global [cacheTime], 60, and the read is stored with it. *)
Lemma zero_cacheTime_counterexample :
  let w := snd (hook cfg_zero_cacheTime no_faults (findMany "User") start) in
  ModelConfig.cacheTime <$> cfg_models cfg_zero_cacheTime = [Some 0%Z]
  ∧ ttl <$> cache w !! "User" = Some 60%Z
  ∧ map e_ttl (storage w) = [60%Z].
Proof. vm_compute. repeat split. Qed.

(** C8 (amended), at a concrete call: under the rule with [cacheTime: 300] the
    binding of [User] has a ttl of 300. *)
Lemma binding_ttl_witness :
  let b := {| tagKey := "User"; ttl := 300 |} in
  cache (hooks cfg_user [(no_faults, findMany "User")]) !! "User" = Some b
  ∧ ((∃ r, r ∈ cfg_models cfg_user ∧ ModelConfig.model r = "User"
           ∧ ttl b = match ModelConfig.cacheTime r with
                     | Some t => if (t =? 0)%Z then cfg_cacheTime cfg_user else t
                     | None => cfg_cacheTime cfg_user
                     end)
     ∨ ((∀ r, r ∈ cfg_models cfg_user → ModelConfig.model r ≠ "User")
        ∧ ttl b = cfg_cacheTime cfg_user))
  ∧ (cacheTime cfg_user = None → cfg_cacheTime cfg_user = 0%Z).
Proof.
  cbv zeta.
  assert (cache (hooks cfg_user [(no_faults, findMany "User")]) !! "User"
          = Some {| tagKey := "User"; ttl := 300 |}) as Hb by (vm_compute; reflexivity).
  split; [exact Hb|].
  exact (binding_ttl Rows serialize defaultCacheMethods defaultMutationMethods
           wildcardMatch cfg_user [(no_faults, findMany "User")] [] "User" _ Hb).
Defined.

(** C9 as stated fails: the rule of [User] sets the [cacheKey] to [AdminUser],
    which is not the model name, and declares no related model; the entry a
    read stored under [AdminUser~<callKey>] does not survive a successful
    [update] of [User], because [*User~*] matches it. *)
Lemma cacheKey_suffix_counterexample :
  let before := hooks cfg_admin_user [(no_faults, findMany "User")] in
  let after := hook cfg_admin_user no_faults (update "User") before in
  ModelConfig.cacheKey <$> cfg_models cfg_admin_user = [Some "AdminUser"]
  ∧ related_models cfg_admin_user (update "User") = []
  ∧ map e_references (storage before) = [["AdminUser~User.findMany({})"]]
  ∧ wildcardMatch (invalidation_pattern "User") "AdminUser~User.findMany({})" = true
  ∧ fst after = Fulfilled "updated"
  ∧ storage (snd after) = [].
Proof. vm_compute. repeat split. Qed.

(** C9 (amended), at concrete calls: under the rule with
    [cacheKey: "Article"] the entry of a read of [Post] survives a successful
    [update] of [Post], whose first deletion uses [*Post~*]; under the rule
    with [cacheKey: "AdminUser"] the entry of a read of [User] does not
    survive an [update] of [User]. *)
Lemma primary_invalidation_uses_model_name_witness :
  let e := {| e_name := "Post"; e_key := "Post.findMany({})";
              e_references := ["Article~Post.findMany({})"];
              e_ttl := 60; e_value := "rows" |} in
  let before := hooks cfg_article [(no_faults, findMany "Post")] in
  let after := hook cfg_article no_faults (update "Post") before in
  let admin := {| e_name := "User"; e_key := "User.findMany({})";
                  e_references := ["AdminUser~User.findMany({})"];
                  e_ttl := 300; e_value := "rows" |} in
  let admin_before := hooks cfg_admin_user [(no_faults, findMany "User")] in
  (includes defaultMutationMethods (operation (update "Post")) = true
   ∧ fst after = Fulfilled "updated"
   ∧ e ∈ storage before
   ∧ entry_matches wildcardMatch (invalidation_pattern "Post") e = false
   ∧ e ∈ storage (snd after)
   ∧ ∃ evs, trace (snd after)
            = trace before ++ [EvQueryCalled; EvInvalidateAll "*Post~*"] ++ evs)
  ∧ (admin ∈ storage admin_before
     ∧ entry_matches wildcardMatch (invalidation_pattern "User") admin = true
     ∧ admin ∉ storage (snd (hook cfg_admin_user no_faults (update "User") admin_before))).
Proof.
  cbv zeta. split.
  - assert ({| e_name := "Post"; e_key := "Post.findMany({})";
               e_references := ["Article~Post.findMany({})"];
               e_ttl := 60; e_value := "rows" |}
            ∈ storage (hooks cfg_article [(no_faults, findMany "Post")])) as Hin
      by (apply list_elem_of_singleton; reflexivity).
    pose proof (primary_invalidation_uses_model_name Rows serialize defaultCacheMethods
                  defaultMutationMethods wildcardMatch cfg_article no_faults
                  (update "Post") (hooks cfg_article [(no_faults, findMany "Post")])
                  eq_refl) as Hwrite.
    assert (fst (register_run defaultCacheMethods cfg_article (update "Post")
                   (cache (hooks cfg_article [(no_faults, findMany "Post")])))
            = Fulfilled tt) as Hrun by (vm_compute; reflexivity).
    cbv zeta in Hwrite. rewrite Hrun in Hwrite.
    destruct Hwrite as (_ & Htrace & Hkeeps & _).
    split; [reflexivity|]. split; [vm_compute; reflexivity|]. split; [exact Hin|].
    split; [reflexivity|]. split; [|exact Htrace].
    apply (Hkeeps _ Hin); [reflexivity|].
    intros m Hm. apply elem_of_nil in Hm. destruct Hm.
  - pose proof (primary_invalidation_uses_model_name Rows serialize defaultCacheMethods
                  defaultMutationMethods wildcardMatch cfg_admin_user no_faults
                  (update "User") (hooks cfg_admin_user [(no_faults, findMany "User")])
                  eq_refl) as Hwrite.
    assert (fst (register_run defaultCacheMethods cfg_admin_user (update "User")
                   (cache (hooks cfg_admin_user [(no_faults, findMany "User")])))
            = Fulfilled tt) as Hrun by (vm_compute; reflexivity).
    cbv zeta in Hwrite. rewrite Hrun in Hwrite.
    destruct Hwrite as (_ & _ & _ & Hremoves).
    split; [apply list_elem_of_singleton; reflexivity|]. split; [reflexivity|].
    apply Hremoves; reflexivity.
Defined.

(** C10, at a concrete configuration: [queryRaw] is not a default cache
    method; listing it in [excludeMethods] excludes nothing. *)
Lemma excludeMethods_only_default_cache_methods_witness :
  includes defaultCacheMethods "queryRaw" = false
  ∧ includes (excludedCacheMethods defaultCacheMethods
                (with_excludeMethod "queryRaw" cfg_user)) "queryRaw"
    = false
  ∧ ∀ env p w,
      allOperations (DB := Rows) serialize defaultCacheMethods defaultMutationMethods
        wildcardMatch (with_excludeMethod "queryRaw" cfg_user) env p w
      = allOperations serialize defaultCacheMethods defaultMutationMethods
          wildcardMatch cfg_user env p w.
Proof.
  split; [reflexivity|].
  exact (proj2 (excludeMethods_only_default_cache_methods Rows serialize
                  defaultCacheMethods defaultMutationMethods wildcardMatch cfg_user)
           "queryRaw" eq_refl).
Defined.

Arguments with_query {DB} q p.
Arguments callKey {DB} serialize p.
Arguments log {DB} ev w.
Arguments invalidation_patterns {DB} cfg p.

(** ** Further scenarios *)

(** [{ models: [{ model: "User", cacheTime: 300 }], cacheTime: 60,
    excludeModels: ["User"] }]. *)
Definition cfg_user_excluded : CreatePrismaRedisCache :=
  {| models := Some [ModelConfig.mk "User" (Some 300%Z) None None None];
     cacheTime := Some 60%Z; excludeModels := Some ["User"]; excludeMethods := None |}.

(** Two rules for [User]: the first excludes [count] and tags with [Account],
    the second tags with [Member]. *)
Definition rule_account : ModelConfig.t :=
  ModelConfig.mk "User" (Some 300%Z) (Some "Account") (Some ["count"]) None.
Definition rule_member : ModelConfig.t :=
  ModelConfig.mk "User" None (Some "Member") None None.
Definition cfg_two_rules : CreatePrismaRedisCache :=
  {| models := Some [rule_account; rule_member];
     cacheTime := Some 60%Z; excludeModels := None; excludeMethods := None |}.

(** The extension called without any option but [storage]. *)
Definition cfg_default : CreatePrismaRedisCache :=
  {| models := None; cacheTime := None; excludeModels := None; excludeMethods := None |}.

(** The entry a [findMany] on a model stores under a tag key. *)
Definition findMany_entry (m tk : string) (t : Z) : Entry :=
  {| e_name := m; e_key := serialize m "findMany" "{}";
     e_references := [tk +:+ "~" +:+ serialize m "findMany" "{}"];
     e_ttl := t; e_value := "rows" |}.

(** A read of the excluded model [User], with the store unreachable: the rows
    of the executor come back and nothing else happens. *)
Lemma excluded_read_passes_through_witness :
  let env := failing_cache "ECONNREFUSED" in
  (includes (cfg_excludeModels cfg_user_excluded) (model (findMany "User")) = true
   ∨ includes (excludedCacheMethods defaultCacheMethods cfg_user_excluded)
       (operation (findMany "User")) = true)
  ∧ includes defaultMutationMethods (operation (findMany "User")) = false
  ∧ fst (hook cfg_user_excluded env (findMany "User") start) = Fulfilled "rows"
  ∧ storage (snd (hook cfg_user_excluded env (findMany "User") start)) = []
  ∧ cache (snd (hook cfg_user_excluded env (findMany "User") start)) = ∅.
Proof.
  cbv zeta.
  assert (includes (cfg_excludeModels cfg_user_excluded) (model (findMany "User")) = true)
    as Hex by reflexivity.
  assert (includes defaultMutationMethods (operation (findMany "User")) = false)
    as Hm by reflexivity.
  destruct (excluded_read_passes_through Rows serialize defaultCacheMethods
              defaultMutationMethods wildcardMatch cfg_user_excluded (failing_cache "ECONNREFUSED")
              (findMany "User") start (or_introl Hex) Hm)
    as (Hr & _ & Hs & Hc & _).
  split; [by left|]. split; [exact Hm|]. split; [exact Hr|]. split; [exact Hs | exact Hc].
Defined.

(** Reads and a mutation on the excluded model [User] define nothing for it. *)
Lemma excluded_model_never_defined_witness :
  let calls := [(no_faults, findMany "User"); (no_faults, count "User");
                (no_faults, update "User")] in
  includes (cfg_excludeModels cfg_user_excluded) "User" = true
  ∧ cache start !! "User" = None
  ∧ cache (hooks cfg_user_excluded calls) !! "User" = None.
Proof.
  cbv zeta.
  assert (includes (cfg_excludeModels cfg_user_excluded) "User" = true) as Hex
    by reflexivity.
  assert (cache start !! "User" = None) as Hnone by (vm_compute; reflexivity).
  split; [exact Hex|]. split; [exact Hnone|].
  exact (excluded_model_never_defined Rows serialize defaultCacheMethods
           defaultMutationMethods wildcardMatch cfg_user_excluded _ start "User" Hex Hnone).
Defined.

(** The entry of a [findMany] on [User]: a read, not excluded. *)
Lemma stored_entry_provenance_witness :
  let e := findMany_entry "User" "User" 300 in
  e ∈ storage (hooks cfg_user [(no_faults, findMany "User")])
  ∧ includes (cfg_excludeModels cfg_user) (e_name e) = false
  ∧ ∃ op a, e_key e = serialize (e_name e) op a
            ∧ includes (excludedCacheMethods defaultCacheMethods cfg_user) op = false
            ∧ includes defaultMutationMethods op = false.
Proof.
  cbv zeta.
  assert (findMany_entry "User" "User" 300
          ∈ storage (hooks cfg_user [(no_faults, findMany "User")])) as Hin
    by (apply list_elem_of_singleton; reflexivity).
  split; [exact Hin|].
  exact (stored_entry_provenance Rows serialize defaultCacheMethods defaultMutationMethods wildcardMatch
           cfg_user [(no_faults, findMany "User")] [] _ Hin).
Defined.

(** A [count] on [Post] leaves the entry of [User] in the store. *)
Lemma read_keeps_entries_witness :
  let e := findMany_entry "User" "User" 300 in
  let w := hooks cfg_user [(no_faults, findMany "User")] in
  includes defaultMutationMethods (operation (count "Post")) = false
  ∧ e ∈ storage w
  ∧ e ∈ storage (snd (hook cfg_user no_faults (count "Post") w)).
Proof.
  cbv zeta.
  assert (findMany_entry "User" "User" 300
          ∈ storage (hooks cfg_user [(no_faults, findMany "User")])) as Hin
    by (apply list_elem_of_singleton; reflexivity).
  split; [reflexivity|]. split; [exact Hin|].
  exact (read_keeps_entries Rows serialize defaultCacheMethods defaultMutationMethods wildcardMatch
           cfg_user no_faults (count "Post") _ _ eq_refl Hin).
Defined.

(** A [findMany] on [User] defines nothing for [Post]. *)
Lemma call_defines_only_its_model_witness :
  "Post" ≠ model (findMany "User")
  ∧ cache (snd (hook cfg_user no_faults (findMany "User") start)) !! "Post"
    = cache start !! "Post".
Proof.
  assert ("Post" ≠ model (findMany "User")) as Hne by discriminate.
  split; [exact Hne|].
  exact (call_defines_only_its_model Rows serialize defaultCacheMethods
           defaultMutationMethods wildcardMatch cfg_user no_faults (findMany "User") start "Post" Hne).
Defined.

(** With the two rules of [User], a [count] asked first is excluded by the
    first rule and defines the function from the second. *)
Lemma first_matching_rule_defines_witness :
  cfg_models cfg_two_rules = [rule_account] ++ rule_member :: []
  ∧ opt_includes (ModelConfig.excludeMethods rule_account) (operation (count "User")) = true
  ∧ register_run defaultCacheMethods cfg_two_rules (count "User") ∅
    = (Fulfilled tt, <["User" := {| tagKey := "Member"; ttl := 60 |}]> ∅)
  ∧ register defaultCacheMethods cfg_two_rules (count "User") ∅ !! "User"
    = Some {| tagKey := "Member"; ttl := 60 |}.
Proof.
  split; [reflexivity|]. split; [reflexivity|].
  assert (∀ r, r ∈ [rule_account] →
               ModelConfig.model r ≠ model (count "User")
               ∨ opt_includes (ModelConfig.excludeMethods r) (operation (count "User")) = true)
    as Hbefore.
  { intros r Hr. apply list_elem_of_singleton in Hr as ->. by right. }
  destruct (first_matching_rule_defines Rows defaultCacheMethods cfg_two_rules
              (count "User") ∅ [rule_account] rule_member [] eq_refl Hbefore
              eq_refl eq_refl (lookup_empty _) eq_refl eq_refl) as [Hrun Hdefines].
  split; [exact Hrun|]. apply Hdefines. vm_compute. discriminate.
Defined.

(** [Comment] has no rule: its first read defines the default binding. *)
Lemma unconfigured_model_gets_default_witness :
  (∀ r, r ∈ cfg_models cfg_user → ModelConfig.model r ≠ model (findMany "Comment"))
  ∧ register defaultCacheMethods cfg_user (findMany "Comment") ∅ !! "Comment"
    = Some {| tagKey := "Comment"; ttl := 60 |}.
Proof.
  assert (∀ r, r ∈ cfg_models cfg_user → ModelConfig.model r ≠ model (findMany "Comment"))
    as Hno.
  { intros r Hr. apply list_elem_of_singleton in Hr as ->. discriminate. }
  split; [exact Hno|].
  exact (unconfigured_model_gets_default Rows defaultCacheMethods cfg_user
           (findMany "Comment") ∅ Hno (lookup_empty _) eq_refl eq_refl).
Defined.

(** An [update] on [User], related to [Post], with entries of [User], [Post]
    and [Comment] in the store: the entry of [Comment] is what is left. *)
Lemma mutation_clears_matching_entries_witness :
  let w := hooks cfg_user_related
             [(no_faults, findMany "User"); (no_faults, findMany "Post");
              (no_faults, findMany "Comment")] in
  includes defaultMutationMethods (operation (update "User")) = true
  ∧ fst (register_run defaultCacheMethods cfg_user_related (update "User") (cache w))
    = Fulfilled tt
  ∧ (∀ pattern, pattern ∈ invalidation_patterns cfg_user_related (update "User") →
                invalidateFault no_faults pattern = None)
  ∧ invalidation_patterns cfg_user_related (update "User") = ["*User~*"; "*Post~*"]
  ∧ map e_name (storage w) = ["User"; "Post"; "Comment"]
  ∧ storage (snd (hook cfg_user_related no_faults (update "User") w))
    = List.filter
        (matches_none wildcardMatch (invalidation_patterns cfg_user_related (update "User")))
        (storage w)
  ∧ List.filter
      (matches_none wildcardMatch (invalidation_patterns cfg_user_related (update "User")))
      (storage w)
    = [findMany_entry "Comment" "Comment" 60].
Proof.
  cbv zeta.
  assert (∀ pattern, pattern ∈ invalidation_patterns cfg_user_related (update "User") →
                     invalidateFault no_faults pattern = None) as Hok by done.
  assert (fst (register_run defaultCacheMethods cfg_user_related (update "User")
                 (cache (hooks cfg_user_related
                           [(no_faults, findMany "User"); (no_faults, findMany "Post");
                            (no_faults, findMany "Comment")])))
          = Fulfilled tt) as Hrun by (vm_compute; reflexivity).
  split; [reflexivity|]. split; [exact Hrun|]. split; [exact Hok|]. split; [reflexivity|].
  split; [vm_compute; reflexivity|].
  split; [|vm_compute; reflexivity].
  exact (mutation_clears_matching_entries Rows serialize defaultCacheMethods
           defaultMutationMethods wildcardMatch cfg_user_related no_faults (update "User") _ eq_refl
           Hrun Hok).
Defined.

(** A rule of [User] that asks for a negative ttl. *)
Definition cfg_negative_cacheTime : CreatePrismaRedisCache :=
  {| models := Some [ModelConfig.mk "User" (Some (-5)%Z) None None None];
     cacheTime := Some 60%Z; excludeModels := None; excludeMethods := None |}.

(** An [update] whose deletion fails: the call rejects, the write is done.
    An [update] under a rule with a negative [cacheTime]: [cache.define]
    throws, the call rejects and the executor is not called. *)
Lemma mutation_runs_query_once_witness :
  let env := failing_invalidation "*User~*" "READONLY" in
  includes defaultMutationMethods (operation (update "User")) = true
  ∧ (fst (hook cfg_user_related env (update "User") start) = Rejected "READONLY"
     ∧ db (snd (hook cfg_user_related env (update "User") start))
       = snd (query (update "User") (args (update "User")) (db start))
     ∧ snd (query (update "User") (args (update "User")) (db start)) = ["{}"])
  ∧ hook cfg_negative_cacheTime no_faults (update "User") start
    = (Rejected "ttl must be a positive integer greater than 0", start).
Proof.
  cbv zeta. split; [reflexivity|]. split.
  - split; [vm_compute; reflexivity|]. split; [|reflexivity].
    pose proof (mutation_runs_query_once Rows serialize defaultCacheMethods
                  defaultMutationMethods wildcardMatch cfg_user_related
                  (failing_invalidation "*User~*" "READONLY") (update "User") start
                  eq_refl) as Hruns.
    assert (fst (register_run defaultCacheMethods cfg_user_related (update "User")
                   (cache start)) = Fulfilled tt) as Hrun by (vm_compute; reflexivity).
    rewrite Hrun in Hruns. exact (proj1 Hruns).
  - pose proof (mutation_runs_query_once Rows serialize defaultCacheMethods
                  defaultMutationMethods wildcardMatch cfg_negative_cacheTime
                  no_faults (update "User") start eq_refl) as Hthrows.
    assert (fst (register_run defaultCacheMethods cfg_negative_cacheTime (update "User")
                   (cache start))
            = Rejected "ttl must be a positive integer greater than 0") as Hrun
      by (vm_compute; reflexivity).
    rewrite Hrun in Hthrows. exact Hthrows.
Defined.

(** The first [findMany] on [User] stores its rows; the second is answered
    from the store even though its executor would fail. *)
Lemma repeated_read_hits_witness :
  let b := {| tagKey := "User"; ttl := 300 |} in
  let first := hook cfg_user no_faults (findMany "User") start in
  cacheable defaultCacheMethods defaultMutationMethods cfg_user (findMany "User")
    (register defaultCacheMethods cfg_user (findMany "User") (cache start)) = Some b
  ∧ lookup_entry (model (findMany "User")) (callKey serialize (findMany "User"))
      (storage start) = None
  ∧ query (findMany "User") (args (findMany "User")) (db start) = (Fulfilled "rows", ["{}"])
  ∧ (1 ≤ ttl b)%Z
  ∧ fst first = Fulfilled "rows"
  ∧ hook cfg_user no_faults (with_query (query_fails "P1001") (findMany "User")) (snd first)
    = (Fulfilled "rows",
       log (EvCacheHit "User" (callKey serialize (findMany "User"))) (snd first)).
Proof.
  cbv zeta.
  assert (cacheable defaultCacheMethods defaultMutationMethods cfg_user (findMany "User")
            (register defaultCacheMethods cfg_user (findMany "User") (cache start))
          = Some {| tagKey := "User"; ttl := 300 |}) as Hc by (vm_compute; reflexivity).
  assert (lookup_entry (model (findMany "User")) (callKey serialize (findMany "User"))
            (storage start) = None) as Hmiss by reflexivity.
  assert (query (findMany "User") (args (findMany "User")) (db start)
          = (Fulfilled "rows", ["{}"])) as Hq by reflexivity.
  assert (1 ≤ 300)%Z as Httl by lia.
  assert (∀ e, cacheFault no_faults ≠ FaultOnGet e) as Hfault by discriminate.
  split; [exact Hc|]. split; [exact Hmiss|]. split; [exact Hq|]. split; [exact Httl|].
  exact (repeated_read_hits Rows serialize defaultCacheMethods defaultMutationMethods wildcardMatch
           cfg_user no_faults no_faults (findMany "User") (query_fails "P1001") start
           _ _ _ Hc eq_refl Hmiss Hq Httl Hfault).
Defined.

(** A [findMany] on [User] whose query rejects: the source of truth is asked
    twice, the caller gets the second error, nothing is stored. *)
Lemma failing_read_runs_query_twice_witness :
  let p := call "User" "findMany" (query_fails "P1001") in
  cacheable defaultCacheMethods defaultMutationMethods cfg_user p
    (register defaultCacheMethods cfg_user p (cache start))
  = Some {| tagKey := "User"; ttl := 300 |}
  ∧ query p (args p) (db start) = (Rejected "P1001", [])
  ∧ fst (hook cfg_user no_faults p start) = Rejected "P1001"
  ∧ storage (snd (hook cfg_user no_faults p start)) = []
  ∧ List.filter (λ ev, match ev with EvQueryCalled => true | _ => false end)
      (trace (snd (hook cfg_user no_faults p start)))
    = [EvQueryCalled; EvQueryCalled].
Proof.
  cbv zeta.
  assert (cacheable defaultCacheMethods defaultMutationMethods cfg_user
            (call "User" "findMany" (query_fails "P1001"))
            (register defaultCacheMethods cfg_user
               (call "User" "findMany" (query_fails "P1001")) (cache start))
          = Some {| tagKey := "User"; ttl := 300 |}) as Hc by (vm_compute; reflexivity).
  assert (∀ e, cacheFault no_faults ≠ FaultOnGet e) as Hfault by discriminate.
  destruct (failing_read_runs_query_twice Rows serialize defaultCacheMethods
              defaultMutationMethods wildcardMatch cfg_user no_faults
              (call "User" "findMany" (query_fails "P1001")) start _ "P1001" []
              Hc Hfault eq_refl eq_refl) as (Hr & _ & Hs).
  split; [exact Hc|]. split; [reflexivity|]. split; [exact Hr|]. split; [exact Hs|].
  vm_compute. reflexivity.
Defined.

(** Without any [cacheTime], reads go through the cache function and store
    nothing. *)
Lemma no_positive_ttl_stores_nothing_witness :
  (cfg_cacheTime cfg_default < 1)%Z
  ∧ (∀ r, r ∈ cfg_models cfg_default →
          (number_or (ModelConfig.cacheTime r) (cfg_cacheTime cfg_default) < 1)%Z)
  ∧ storage (hooks cfg_default [(no_faults, findMany "User"); (no_faults, findMany "User")])
    = [].
Proof.
  assert (cfg_cacheTime cfg_default < 1)%Z as Hglobal by (vm_compute; reflexivity).
  assert (∀ r, r ∈ cfg_models cfg_default →
               (number_or (ModelConfig.cacheTime r) (cfg_cacheTime cfg_default) < 1)%Z)
    as Hrules by (intros r Hr; by apply elem_of_nil in Hr).
  split; [exact Hglobal|]. split; [exact Hrules|].
  exact (no_positive_ttl_stores_nothing Rows serialize defaultCacheMethods
           defaultMutationMethods wildcardMatch cfg_default _ [] Hglobal Hrules).
Defined.
